(** * schedule-planner: the date extraction pipeline of [schedule_planner.py]

    The development embeds the parts of [schedule_planner.py] that mine
    calendar dates from the text of a syllabus and fold them into the
    schedule table:

    - the call [re.findall(<pattern>, text, re.IGNORECASE)] of
      [extract_dates_from_pdf], as a backtracking matcher over a regular
      expression syntax tree that is the pattern of the source, operator
      by operator;
    - the loop around [parser.parse] with its bare [except], and the outer
      [try ... except Exception] of [extract_dates_from_pdf], in a small
      monad of printed lines and raised exceptions;
    - the construction of the syllabus rows in [main], the combination of
      the two tables and [to_csv].

    Text is a sequence of code points below 256 (one [ascii] each): on
    that range the character categories of [re] are the ones defined
    here. *)

From Stdlib Require Import String Ascii Bool Arith NArith ZArith Lia List.
From Stdlib Require Import DecimalString.
Import ListNotations.

Set Implicit Arguments.

Local Open Scope string_scope.
Local Open Scope list_scope.

(** ** Characters *)

Definition text := list ascii.

Definition code (c : ascii) : N := N_of_ascii c.

Definition between (lo hi : N) (c : ascii) : bool :=
  (N.leb lo (code c) && N.leb (code c) hi)%bool.

(** [\d]: the decimal digits. *)
Definition is_digit (c : ascii) : bool := between 48 57 c.

(** [\s]: tab to carriage return, the four separators 0x1c to 0x1f,
    space, next line (0x85) and no-break space (0xa0). *)
Definition is_space (c : ascii) : bool :=
  (between 9 13 c || between 28 32 c || N.eqb (code c) 133
   || N.eqb (code c) 160)%bool.

Definition is_upper (c : ascii) : bool := between 65 90 c.
Definition is_lower (c : ascii) : bool := between 97 122 c.
Definition is_alpha (c : ascii) : bool := (is_upper c || is_lower c)%bool.

(** [\w]: what [str.isalnum] accepts, and the underscore. *)
Definition is_word (c : ascii) : bool :=
  (is_alpha c || is_digit c || N.eqb (code c) 95
   || N.eqb (code c) 170 || between 178 179 c || N.eqb (code c) 181
   || between 185 186 c || between 188 190 c
   || between 192 214 c || between 216 246 c || between 248 255 c)%bool.

(** Lower-casing, as [re.IGNORECASE] applies it to both sides of a
    literal comparison. *)
Definition lower (c : ascii) : ascii :=
  if (is_upper c || between 192 214 c || between 216 222 c)%bool
  then ascii_of_N (code c + 32) else c.

Definition chr_eq (ignorecase : bool) (a b : ascii) : bool :=
  if ignorecase then Ascii.eqb (lower a) (lower b) else Ascii.eqb a b.

(** ** Regular expressions, as [re] compiles the pattern of the source *)

Inductive category := Space | Digit.

(** One-character items: a literal character or a category escape. *)
Inductive item :=
| Chr (c : ascii)
| Cat (k : category).

Inductive regex :=
| Str (l : text)                       (* a run of literal characters *)
| Boundary                             (* \b *)
| Seq (r1 r2 : regex)                  (* r1 r2 *)
| Alt (r1 r2 : regex)                  (* r1|r2 *)
| Opt (r : regex)                      (* (?:r)? *)
| Rep (lo : nat) (hi : option nat) (i : item).  (* i{lo,hi}, i+, i? *)

Declare Scope regex_scope.
Delimit Scope regex_scope with re.
Notation "a @@ b" := (Seq a b) (at level 61, right associativity) : regex_scope.
Notation "a <|> b" := (Alt a b) (at level 62, right associativity) : regex_scope.

Definition lit (s : string) : regex := Str (list_ascii_of_string s).

Definition in_category (k : category) (c : ascii) : bool :=
  match k with
  | Space => is_space c
  | Digit => is_digit c
  end.

Definition item_match (ignorecase : bool) (i : item) (c : ascii) : bool :=
  match i with
  | Chr a => chr_eq ignorecase a c
  | Cat k => in_category k c
  end.

(** A position in the text: the character before it, if any, and what is
    left to read. *)
Definition pos := (option ascii * text)%type.

Definition word_before (p : option ascii) : bool :=
  match p with
  | Some c => is_word c
  | None => false
  end.

Definition word_after (s : text) : bool :=
  match s with
  | c :: _ => is_word c
  | [] => false
  end.

(** [\b] holds where exactly one side is a word character. *)
Definition at_boundary (prev : option ascii) (s : text) : bool :=
  negb (Bool.eqb (word_before prev) (word_after s)).

Section Engine.

Variable ignorecase : bool.

Fixpoint str_match (l : text) (prev : option ascii) (s : text) : list pos :=
  match l with
  | [] => [(prev, s)]
  | a :: l' =>
      match s with
      | c :: s' => if chr_eq ignorecase a c then str_match l' (Some c) s' else []
      | [] => []
      end
  end.

(** A greedy repeat of a one-character item: as many as allowed first,
    then one fewer, down to [lo]. *)
Fixpoint rep_one (i : item) (lo : nat) (hi : option nat)
         (prev : option ascii) (s : text) : list pos :=
  let stop := if Nat.eqb lo 0 then [(prev, s)] else [] in
  match s with
  | c :: s' =>
      if (item_match ignorecase i c
          && negb (match hi with Some 0 => true | _ => false end))%bool
      then rep_one i (Nat.pred lo) (option_map Nat.pred hi) (Some c) s' ++ stop
      else stop
  | [] => stop
  end.

(** All the ways [r] matches at a position, in the order in which the
    backtracking matcher tries them; each is the position where the match
    ends.  The matcher commits to the first one that lets the rest of the
    pattern succeed. *)
Fixpoint matches (r : regex) (prev : option ascii) (s : text) : list pos :=
  match r with
  | Str l => str_match l prev s
  | Boundary => if at_boundary prev s then [(prev, s)] else []
  | Seq r1 r2 =>
      flat_map (fun p => matches r2 (fst p) (snd p)) (matches r1 prev s)
  | Alt r1 r2 => matches r1 prev s ++ matches r2 prev s
  | Opt r1 => matches r1 prev s ++ [(prev, s)]
  | Rep lo hi i => rep_one i lo hi prev s
  end.

(** The first way to match at this position; with [must_advance] an
    empty match is passed over. *)
Fixpoint first_end (must_advance : bool) (s : text) (l : list pos) : option pos :=
  match l with
  | [] => None
  | p :: l' =>
      if (must_advance && Nat.eqb (length (snd p)) (length s))%bool
      then first_end must_advance s l'
      else Some p
  end.

(** [search]: the first position from here on where the pattern matches;
    the result is the text from the start of the match and the position
    of its end. *)
Fixpoint search (r : regex) (must_advance : bool)
         (prev : option ascii) (s : text) : option (text * pos) :=
  match first_end must_advance s (matches r prev s) with
  | Some p => Some (s, p)
  | None =>
      match s with
      | c :: s' => search r false (Some c) s'
      | [] => None
      end
  end.

(** The loop of [findall] for a pattern without capturing groups: each
    match is reported whole, the next search starts where the match
    ended, and after an empty match the next one has to advance. *)
Fixpoint findall_loop (fuel : nat) (r : regex) (must_advance : bool)
         (prev : option ascii) (s : text) : list text :=
  match fuel with
  | O => []
  | S fuel' =>
      match search r must_advance prev s with
      | None => []
      | Some (s0, (prev1, s1)) =>
          firstn (length s0 - length s1) s0
          :: findall_loop fuel' r (Nat.eqb (length s1) (length s0)) prev1 s1
      end
  end.

Definition findall (r : regex) (s : text) : list text :=
  findall_loop (2 * length s + 2) r false None s.

End Engine.

(** ** The pattern of [extract_dates_from_pdf] *)

Definition month_alt (abbr rest : string) : regex :=
  (lit abbr @@ Opt (lit rest))%re.

(** [\b(?:Jan(?:uary)?|Feb(?:ruary)?|Mar(?:ch)?|Apr(?:il)?|May|Jun(?:e)?|
       Jul(?:y)?|Aug(?:ust)?|Sep(?:tember)?|Oct(?:ober)?|Nov(?:ember)?|
       Dec(?:ember)?)\.?\s+\d{1,2}(?:,\s+\d{4})?] *)
Definition month_names : regex :=
  (month_alt "Jan" "uary" <|> month_alt "Feb" "ruary" <|> month_alt "Mar" "ch"
   <|> month_alt "Apr" "il" <|> lit "May" <|> month_alt "Jun" "e"
   <|> month_alt "Jul" "y" <|> month_alt "Aug" "ust" <|> month_alt "Sep" "tember"
   <|> month_alt "Oct" "ober" <|> month_alt "Nov" "ember" <|> month_alt "Dec" "ember")%re.

Definition year_part : regex :=
  (Rep 1 (Some 1) (Chr ",") @@ Rep 1 None (Cat Space)
   @@ Rep 4 (Some 4) (Cat Digit))%re.

Definition date_pattern : regex :=
  (Boundary @@ month_names @@ Rep 0 (Some 1) (Chr ".")
   @@ Rep 1 None (Cat Space) @@ Rep 1 (Some 2) (Cat Digit)
   @@ Opt year_part)%re.

(** [date_matches = re.findall(<pattern>, text, re.IGNORECASE)] *)
Definition date_matches (t : text) : list text := findall true date_pattern t.

(** The scanner on strings. *)
Definition scan (t : string) : list string :=
  map string_of_list_ascii (date_matches (list_ascii_of_string t)).

(** ** Exceptions, printed lines and files *)

(** A raised exception: whether it is an instance of [Exception] (the
    only ones [except Exception] catches; a bare [except] catches all)
    and what [str] gives for it. *)
Record exn := { is_Exception : bool; message : string }.

Inductive outcome (A : Type) :=
| Returned (a : A)
| Raised (e : exn).

Arguments Returned {A} a.
Arguments Raised {A} e.

(** What the program has done to the outside: the lines printed and the
    files written, latest first. *)
Record world := { stdout : list string; files : list (string * string) }.

Definition M (A : Type) : Type := world -> outcome A * world.

Definition ret {A} (a : A) : M A := fun w => (Returned a, w).

Definition bind {A B} (c : M A) (k : A -> M B) : M B :=
  fun w =>
    match c w with
    | (Returned a, w') => k a w'
    | (Raised e, w') => (Raised e, w')
    end.

Definition lift {A} (o : outcome A) : M A := fun w => (o, w).

Definition print (line : string) : M unit :=
  fun w => (Returned tt, {| stdout := line :: stdout w; files := files w |}).

(** [try: body  except: handler] *)
Definition try_except {A} (body : M A) (handler : exn -> M A) : M A :=
  fun w =>
    match body w with
    | (Returned a, w') => (Returned a, w')
    | (Raised e, w') => handler e w'
    end.

(** [try: body  except Exception as e: handler] *)
Definition try_except_Exception {A} (body : M A) (handler : exn -> M A) : M A :=
  try_except body
    (fun e => if is_Exception e then handler e else lift (Raised e)).

Declare Scope monad_scope.
Delimit Scope monad_scope with monad.
Notation "x <- c ;; k" := (bind c (fun x => k))
  (at level 61, c at next level, right associativity) : monad_scope.
Notation "c ;; k" := (bind c (fun _ => k))
  (at level 61, right associativity) : monad_scope.

(** ** Calendar dates *)

Record date := { year : Z; month : Z; day : Z }.

Record datetime :=
  { dt_date : date; hour : Z; minute : Z; second : Z; microsecond : Z }.

(** [datetime.date()] *)
Definition date_of (dt : datetime) : date := dt_date dt.

Local Open Scope Z_scope.

Definition MINYEAR : Z := 1.
Definition MAXYEAR : Z := 9999.

Definition is_leap (y : Z) : bool :=
  ((y mod 4 =? 0) && (negb (y mod 100 =? 0) || (y mod 400 =? 0)))%bool.

Definition days_in_month (y m : Z) : Z :=
  if m =? 2 then (if is_leap y then 29 else 28)
  else if ((m =? 4) || (m =? 6) || (m =? 9) || (m =? 11))%bool then 30
  else 31.

Definition valid_date (d : date) : bool :=
  ((MINYEAR <=? year d) && (year d <=? MAXYEAR)
   && (1 <=? month d) && (month d <=? 12)
   && (1 <=? day d) && (day d <=? days_in_month (year d) (month d)))%bool.

(** Days before January 1st of year [y], and before the first of month
    [m] in year [y]; the ordinal of a date counts from 1 at 0001-01-01. *)
Definition days_before_year (y : Z) : Z :=
  let y' := y - 1 in y' * 365 + y' / 4 - y' / 100 + y' / 400.

Fixpoint days_before_month_aux (y : Z) (n : nat) : Z :=
  match n with
  | O => 0
  | S n' => days_before_month_aux y n' + days_in_month y (Z.of_nat n)
  end.

Definition days_before_month (y m : Z) : Z :=
  days_before_month_aux y (Z.to_nat (m - 1)).

Definition toordinal (d : date) : Z :=
  days_before_year (year d) + days_before_month (year d) (month d) + day d.

(** [date.weekday()]: Monday is 0. *)
Definition weekday (d : date) : Z := (toordinal d + 6) mod 7.

Local Close Scope Z_scope.

Definition day_names : list string :=
  ["Monday"; "Tuesday"; "Wednesday"; "Thursday"; "Friday"; "Saturday";
   "Sunday"].

Definition full_month_names : list string :=
  ["January"; "February"; "March"; "April"; "May"; "June"; "July";
   "August"; "September"; "October"; "November"; "December"].

Definition decimal (z : Z) : string :=
  NilZero.string_of_uint (N.to_uint (Z.to_N z)).

Definition two_digits (z : Z) : string :=
  if (z <? 10)%Z then "0" ++ decimal z else decimal z.

(** The directives of [strftime] the program uses: [%A] weekday name,
    [%B] month name, [%d] day of the month on two digits, [%Y] year in
    decimal; every other character is copied. *)
Definition directive (c : ascii) (d : date) : option string :=
  match c with
  | "A"%char => Some (nth (Z.to_nat (weekday d)) day_names "")
  | "B"%char => Some (nth (Z.to_nat (month d - 1)) full_month_names "")
  | "d"%char => Some (two_digits (day d))
  | "Y"%char => Some (decimal (year d))
  | "%"%char => Some "%"
  | _ => None
  end.

Fixpoint strftime (fmt : string) (d : date) : string :=
  match fmt with
  | String "%" (String c fmt') =>
      match directive c d with
      | Some s => s ++ strftime fmt' d
      | None => String "%" (String c (strftime fmt' d))
      end
  | String c fmt' => String c (strftime fmt' d)
  | EmptyString => EmptyString
  end.

(** ** The normalizer: [parser.parse] under a bare [except] *)

Fixpoint span (f : ascii -> bool) (s : text) : text * text :=
  match s with
  | c :: s' =>
      if f c then let (a, b) := span f s' in (c :: a, b) else ([], s)
  | [] => ([], [])
  end.

Definition digit_value (c : ascii) : Z := Z.of_N (code c) - 48.

Definition number (ds : text) : Z :=
  fold_left (fun acc c => acc * 10 + digit_value c)%Z ds 0%Z.

Definition month_numbers : list (string * Z) :=
  [("january", 1); ("jan", 1); ("february", 2); ("feb", 2); ("march", 3);
   ("mar", 3); ("april", 4); ("apr", 4); ("may", 5); ("june", 6);
   ("jun", 6); ("july", 7); ("jul", 7); ("august", 8); ("aug", 8);
   ("september", 9); ("sep", 9); ("october", 10); ("oct", 10);
   ("november", 11); ("nov", 11); ("december", 12); ("dec", 12)]%Z.

Fixpoint lookup {A} (k : string) (l : list (string * A)) : option A :=
  match l with
  | (k', v) :: l' => if String.eqb k k' then Some v else lookup k l'
  | [] => None
  end.

Definition month_number (tok : text) : option Z :=
  lookup (string_of_list_ascii (map lower tok)) month_numbers.

Definition ParserError (date_str : string) : exn :=
  {| is_Exception := true; message := "Unknown string format: " ++ date_str |}.

Definition out_of_range : exn :=
  {| is_Exception := true; message := "day is out of range for month" |}.

(** The month, the day and the year, if any, that a mention spells:
    month token, optional period, blanks, one or two digits, and then
    nothing more or a comma, blanks and four digits. *)
Definition read_mention (s : text) : option (Z * Z * option Z) :=
  let (tok, s1) := span is_alpha s in
  match month_number tok with
  | None => None
  | Some m =>
      let s2 := match s1 with "."%char :: s' => s' | _ => s1 end in
      let (ws, s3) := span is_space s2 in
      let (ds, s4) := span is_digit s3 in
      if (Nat.eqb (length ws) 0 || Nat.eqb (length ds) 0
          || Nat.ltb 2 (length ds))%bool
      then None
      else
        match s4 with
        | [] => Some (m, number ds, None)
        | ","%char :: s5 =>
            let (ws2, s6) := span is_space s5 in
            let (ys, s7) := span is_digit s6 in
            if (Nat.eqb (length ws2) 0 || negb (Nat.eqb (length ys) 4)
                || negb (Nat.eqb (length s7) 0))%bool
            then None
            else Some (m, number ds, Some (number ys))
        | _ => None
        end
  end.

(** Modelled from the spec: [dateutil.parser.parse], which the program
    imports and whose code is not part of the repository.  Following
    section 4.2 of the specification: a four-digit year in the mention is
    used; a mention without a year gets the default year; a month and day
    that are no date of that year, and a string that is no mention at
    all, are failures (an exception is raised).  The time of day is
    midnight. *)
Definition parse (default_year : Z) (date_str : string) : outcome datetime :=
  match read_mention (list_ascii_of_string date_str) with
  | None => Raised (ParserError date_str)
  | Some (m, d, y) =>
      let dte := {| year := match y with Some y' => y' | None => default_year end;
                    month := m; day := d |} in
      if valid_date dte
      then Returned {| dt_date := dte; hour := 0; minute := 0; second := 0;
                       microsecond := 0 |}
      else Raised out_of_range
  end.

Local Open Scope monad_scope.

Section Pipeline.

(** The collaborators of the pipeline: [parser.parse], and [fitz.open]
    with the pages of the document it returns. *)
Variable parser_parse : string -> outcome datetime.

(** Lines 54 to 62: one turn of the loop tries to parse a mention and
    appends its date; any exception skips the mention. *)
Fixpoint parse_loop (date_matches : list string) (parsed_dates : list date)
  : M (list date) :=
  match date_matches with
  | [] => ret parsed_dates
  | date_str :: rest =>
      parsed_dates' <-
        try_except
          (parsed_date <- lift (parser_parse date_str) ;;
           ret (parsed_dates ++ [date_of parsed_date]))
          (fun _ => ret parsed_dates) ;;
      parse_loop rest parsed_dates'
  end.

Definition normalize (mentions : list string) : M (list date) :=
  parse_loop mentions [].

Record page := { get_text : outcome string }.

Record document := { pages : list page; close : outcome unit }.

Variable fitz_open : string -> outcome document.

(** [for page in doc: text += page.get_text()] *)
Fixpoint read_pages (ps : list page) (text : string) : M string :=
  match ps with
  | [] => ret text
  | p :: ps' =>
      t <- lift (get_text p) ;;
      read_pages ps' (text ++ t)
  end.

Definition extract_dates_from_pdf (pdf_path : string) : M (list date) :=
  try_except_Exception
    (doc <- lift (fitz_open pdf_path) ;;
     text <- read_pages (pages doc) "" ;;
     lift (close doc) ;;
     let date_matches := scan text in
     parsed_dates <- normalize date_matches ;;
     ret parsed_dates)
    (fun e =>
       print ("Error reading PDF: " ++ message e) ;;
       ret []).

End Pipeline.

(** ** The schedule table *)

(** A [DataFrame] of strings: the column labels and the rows, one cell
    per column. *)
Record DataFrame := { columns : list string; rows : list (list string) }.

(** [pd.DataFrame()] *)
Definition empty_frame : DataFrame := {| columns := []; rows := [] |}.

(** [df.empty]: no column or no row. *)
Definition empty (df : DataFrame) : bool :=
  (Nat.eqb (length (columns df)) 0 || Nat.eqb (length (rows df)) 0)%bool.

(** A [dict] with string keys, in insertion order. *)
Definition dict := list (string * string).

Definition keys (d : dict) : list string := map fst d.

Definition add_new (seen : list string) (ks : list string) : list string :=
  fold_left
    (fun acc k => if existsb (String.eqb k) acc then acc else acc ++ [k])
    ks seen.

(** A cell that a record does not provide is left blank. *)
Definition cell (d : dict) (k : string) : string :=
  match lookup k d with
  | Some v => v
  | None => ""
  end.

(** [pd.DataFrame(records)] for a list of dicts: the columns are the keys
    in the order in which they first appear. *)
Definition frame_of_records (records : list dict) : DataFrame :=
  let cols := fold_left (fun acc d => add_new acc (keys d)) records [] in
  {| columns := cols; rows := map (fun d => map (cell d) cols) records |}.

(** The record that [get_user_tasks] appends for one task (lines 25 to
    31). *)
Definition task_record (task_name day start_time end_time description : string)
  : dict :=
  [("Task", task_name); ("Day", day); ("Start Time", start_time);
   ("End Time", end_time); ("Description", description)].

Definition ValueError (msg : string) : exn :=
  {| is_Exception := true; message := msg |}.

(** [pd.DataFrame(data)] for a dict of lists: one column per key, and
    the lists must have one length. *)
Definition frame_of_columns (data : list (string * list string))
  : outcome DataFrame :=
  match data with
  | [] => Returned empty_frame
  | (_, first) :: _ =>
      let n := length first in
      if forallb (fun kv => Nat.eqb (length (snd kv)) n) data
      then Returned
             {| columns := map fst data;
                rows := map (fun i => map (fun kv => nth i (snd kv) "") data)
                            (seq 0 n) |}
      else Raised (ValueError "All arrays must be of the same length")
  end.

(** Lines 148 to 154 of [main]. *)
Definition syllabus_data (dates : list date) : list (string * list string) :=
  [("Task", repeat "Syllabus Event" (length dates));
   ("Day", map (strftime "%A") dates);
   ("Start Time", repeat "N/A" (length dates));
   ("End Time", repeat "N/A" (length dates));
   ("Description", map (strftime "%B %d, %Y") dates)].

(** [syllabus_df] after step 2 of [main] when [dates] came back from the
    extraction: the table is built only [if dates]. *)
Definition syllabus_df (dates : list date) : outcome DataFrame :=
  match dates with
  | [] => Returned empty_frame
  | _ => frame_of_columns (syllabus_data dates)
  end.

(** [pd.concat([a, b], ignore_index=True)]: the columns of [a], then the
    new ones of [b]; every row is laid out on these columns. *)
Definition concat (a b : DataFrame) : DataFrame :=
  let cols := add_new (columns a) (columns b) in
  let lay (df : DataFrame) (r : list string) :=
      map (cell (combine (columns df) r)) cols in
  {| columns := cols;
     rows := map (lay a) (rows a) ++ map (lay b) (rows b) |}.

(** Step 3 of [main]. *)
Definition full_schedule (task_df syllabus_df : DataFrame) : DataFrame :=
  if (negb (empty task_df) && negb (empty syllabus_df))%bool
  then concat task_df syllabus_df
  else if negb (empty task_df) then task_df
  else if negb (empty syllabus_df) then syllabus_df
  else empty_frame.

(** ** Export *)

Definition newline : ascii := ascii_of_N 10.
Definition quote : ascii := ascii_of_N 34.

Definition needs_quotes (c : ascii) : bool :=
  (Ascii.eqb c "," || Ascii.eqb c quote || Ascii.eqb c newline)%bool.

Fixpoint double_quotes (s : string) : string :=
  match s with
  | String c s' =>
      if Ascii.eqb c quote then String c (String c (double_quotes s'))
      else String c (double_quotes s')
  | EmptyString => EmptyString
  end.

(** A field as the [csv] writer emits it with minimal quoting: in
    quotes, with the quotes inside doubled, when it holds the delimiter,
    a quote or the line terminator. *)
Definition csv_field (s : string) : string :=
  if existsb needs_quotes (list_ascii_of_string s)
  then String quote (double_quotes s ++ String quote EmptyString)
  else s.

Definition csv_line (fields : list string) : string :=
  String.concat "," (map csv_field fields) ++ String newline EmptyString.

(** [df.to_csv(index=False)]: the header line, then a line per row. *)
Definition to_csv (df : DataFrame) : string :=
  csv_line (columns df) ++ String.concat "" (map csv_line (rows df)).

Section Saving.

(** Opening a file for writing can fail. *)
Variable open_for_writing : string -> outcome unit.

(** The marks that open the two messages, U+2705 and U+274C, lie beyond
    code point 255: they are parameters. *)
Variables check_mark cross_mark : string.

Definition write_file (filename content : string) : M unit :=
  lift (open_for_writing filename) ;;
  fun w => (Returned tt,
            {| stdout := stdout w; files := (filename, content) :: files w |}).

Definition save_schedule_to_csv (schedule_df : DataFrame) (filename : string)
  : M unit :=
  try_except_Exception
    (write_file filename (to_csv schedule_df) ;;
     print (String newline (check_mark ++ " Schedule saved to " ++ filename)))
    (fun e => print (cross_mark ++ " Error saving schedule: " ++ message e)).

End Saving.

(** ** The schedule entry of the specification *)

Record ScheduleEntry :=
  { Task : string; Day : string; StartTime : string; EndTime : string;
    Description : string }.

(** The entry that a row of a table stands for, read by column label. *)
Definition entry_of_row (cols : list string) (r : list string) : ScheduleEntry :=
  let d := combine cols r in
  {| Task := cell d "Task"; Day := cell d "Day";
     StartTime := cell d "Start Time"; EndTime := cell d "End Time";
     Description := cell d "Description" |}.

Definition entries (df : DataFrame) : list ScheduleEntry :=
  map (entry_of_row (columns df)) (rows df).

Definition weekday_name (d : date) : string :=
  nth (Z.to_nat (weekday d)) day_names "".

Definition month_name (d : date) : string :=
  nth (Z.to_nat (month d - 1)) full_month_names "".

(** The entry of a syllabus date. *)
Definition lifted (d : date) : ScheduleEntry :=
  {| Task := "Syllabus Event"; Day := weekday_name d;
     StartTime := "N/A"; EndTime := "N/A";
     Description :=
       month_name d ++ " " ++ two_digits (day d) ++ ", " ++ decimal (year d) |}.

(** The dates of the mentions that a parser accepts, in order. *)
Definition parsed (parser_parse : string -> outcome datetime)
           (mentions : list string) : list date :=
  flat_map (fun m => match parser_parse m with
                     | Returned dt => [date_of dt]
                     | Raised _ => []
                     end) mentions.

(** ** Mentions, in words *)

Definition month_tokens : list string :=
  ["January"; "Jan"; "February"; "Feb"; "March"; "Mar"; "April"; "Apr";
   "May"; "June"; "Jun"; "July"; "Jul"; "August"; "Aug"; "September";
   "Sep"; "October"; "Oct"; "November"; "Nov"; "December"; "Dec"].

Definition same_ignoring_case (a b : text) : Prop := map lower a = map lower b.

(** A full month name or its three-letter abbreviation, in any case. *)
Definition month_token (tok : text) : Prop :=
  exists name, In name month_tokens
               /\ same_ignoring_case (list_ascii_of_string name) tok.

Definition all (f : ascii -> bool) (s : text) : Prop :=
  Forall (fun c => f c = true) s.

Definition blanks (ws : text) : Prop := ws <> [] /\ all is_space ws.

Definition digits (n : nat) (ds : text) : Prop := length ds = n /\ all is_digit ds.

(** The character before the position reached after reading [m]. *)
Definition last_char (prev : option ascii) (m : text) : option ascii :=
  last (map Some m) prev.

Section Shape.

(** Whether blanks have to separate the comma from the year. *)
Variable blank_after_comma : bool.

Definition year_suffix (yr : text) : Prop :=
  exists ws y,
    yr = ","%char :: ws ++ y /\ all is_space ws
    /\ (if blank_after_comma then ws <> [] else True) /\ digits 4 y.

(** A month token, an optional period, blanks, a day of one or two
    digits and, optionally, a comma and a year of four digits. *)
Definition mention_shape (m : text) : Prop :=
  exists tok dot ws d yr,
    m = tok ++ dot ++ ws ++ d ++ yr
    /\ month_token tok
    /\ (dot = [] \/ dot = ["."%char])
    /\ blanks ws
    /\ (digits 1 d \/ digits 2 d)
    /\ (yr = [] \/ year_suffix yr).

End Shape.

Section Scanning.

(** Where a match may start, given the character before, and what a
    match looks like. *)
Variable starts : option ascii -> Prop.
Variable shape : text -> Prop.

(** The match at a position: the longest text of the shape that the rest
    of the input starts with. *)
Definition match_here (prev : option ascii) (s m : text) : Prop :=
  starts prev
  /\ (exists rest, s = m ++ rest)
  /\ shape m
  /\ forall m' rest', s = m' ++ rest' -> shape m' -> length m' <= length m.

(** Leftmost first, without overlap: at each position the match there is
    reported and the scan goes on after it, or there is none and the scan
    moves one character on. *)
Inductive scanned : option ascii -> text -> list text -> Prop :=
| scanned_end prev : scanned prev [] []
| scanned_skip prev c s l :
    (forall m, ~ match_here prev (c :: s) m) ->
    scanned (Some c) s l ->
    scanned prev (c :: s) l
| scanned_hit prev m rest l :
    match_here prev (m ++ rest) m ->
    scanned (last_char prev m) rest l ->
    scanned prev (m ++ rest) (m :: l).

End Scanning.

(** The pattern of the program: the month token is not glued to a word
    character before it, and the year follows the comma after blanks. *)
Definition mention : text -> Prop := mention_shape true.

Definition scanned_mentions : option ascii -> text -> list text -> Prop :=
  scanned (fun prev => word_before prev = false) mention.

(** The recognition pattern in the words of the specification: nothing
    is asked of what stands before the month token.  The words do not say
    whether blanks may stand between the comma and the year; the
    specification's own example has one, so any number is admitted. *)
Definition claimed_mention : text -> Prop := mention_shape false.

Definition claimed_scan : option ascii -> text -> list text -> Prop :=
  scanned (fun _ => True) claimed_mention.

(** The field names of a schedule entry in the specification. *)
Definition ScheduleEntry_fields : list string :=
  ["Task"; "Day"; "StartTime"; "EndTime"; "Description"].

(** The column labels of the tables of the program. *)
Definition schedule_columns : list string :=
  ["Task"; "Day"; "Start Time"; "End Time"; "Description"].

(** ** The match at a position, computed directly *)

Fixpoint text_eqb (a b : text) : bool :=
  match a, b with
  | [], [] => true
  | x :: a', y :: b' => (Ascii.eqb x y && text_eqb a' b')%bool
  | _, _ => false
  end.

Definition same_b (a b : text) : bool := text_eqb (map lower a) (map lower b).

Definition is_month_token (tok : text) : bool :=
  existsb (fun name => same_b (list_ascii_of_string name) tok) month_tokens.

Definition strip_dot (s : text) : text :=
  match s with
  | "."%char :: s' => s'
  | _ => s
  end.

Definition four_digits (s : text) : option text :=
  match s with
  | a :: b :: c :: d :: s' =>
      if (is_digit a && is_digit b && is_digit c && is_digit d)%bool
      then Some s' else None
  | _ => None
  end.

(** What is left after the year, when a year follows. *)
Definition after_year (s : text) : text :=
  match s with
  | ","%char :: t =>
      let (ws, t2) := span is_space t in
      match ws, four_digits t2 with
      | _ :: _, Some t3 => t3
      | _, _ => s
      end
  | _ => s
  end.

Definition after_day (s : text) : option text :=
  match s with
  | d1 :: s4 =>
      if is_digit d1
      then Some (match s4 with
                 | d2 :: s5 => if is_digit d2 then s5 else s4
                 | [] => s4
                 end)
      else None
  | [] => None
  end.

(** What is left after the period, the blanks, the day and the year. *)
Definition tail_end (s1 : text) : option text :=
  let (ws, s3) := span is_space (strip_dot s1) in
  match ws with
  | [] => None
  | _ :: _ => option_map after_year (after_day s3)
  end.

Definition mention_end (s : text) : option text :=
  let (tok, s1) := span is_alpha s in
  if is_month_token tok then tail_end s1 else None.

(** The match at a position, with the word boundary. *)
Definition here (prev : option ascii) (s : text) : option text :=
  if word_before prev then None else mention_end s.

(** The upper bound of a repeat. *)
Definition within (hi : option nat) (n : nat) : Prop :=
  match hi with
  | Some h => n <= h
  | None => True
  end.

(** ** What a pattern denotes *)

(** The texts [m] that [r] matches between the character [prev] and the
    text [after]. *)
Fixpoint denotes (ic : bool) (r : regex) (prev : option ascii) (m after : text)
  : Prop :=
  match r with
  | Str l => Forall2 (fun a c => chr_eq ic a c = true) l m
  | Boundary => m = [] /\ at_boundary prev after = true
  | Seq r1 r2 =>
      exists m1 m2,
        m = m1 ++ m2 /\ denotes ic r1 prev m1 (m2 ++ after)
        /\ denotes ic r2 (last_char prev m1) m2 after
  | Alt r1 r2 => denotes ic r1 prev m after \/ denotes ic r2 prev m after
  | Opt r1 => denotes ic r1 prev m after \/ m = []
  | Rep lo hi i =>
      Forall (fun c => item_match ic i c = true) m /\ lo <= length m
      /\ within hi (length m)
  end.

(** A run of [f] characters ends before [b]. *)
Definition stops (f : ascii -> bool) (b : text) : Prop :=
  match b with
  | c :: _ => f c = false
  | [] => True
  end.

(** The text left by the first way to match. *)
Definition first_rest (l : list pos) : option text := option_map snd (hd_error l).

(** The parts of the pattern after the blanks and after the month. *)
Definition after_blanks : regex :=
  (Rep 1 (Some 2) (Cat Digit) @@ Opt year_part)%re.

Definition after_month : regex :=
  (Rep 0 (Some 1) (Chr ".") @@ Rep 1 None (Cat Space) @@ after_blanks)%re.

(** The match of the program at a position. *)
Definition mention_here : option ascii -> text -> text -> Prop :=
  match_here (fun prev => word_before prev = false) mention.

(** Texts without letters. *)
Definition no_alpha (s : text) : Prop := Forall (fun c => is_alpha c = false) s.

(** Whether no month token is the end of a longer one. *)
Definition suffix_free : bool :=
  forallb (fun n1 =>
    forallb (fun n2 =>
      let a := map lower (list_ascii_of_string n1) in
      let b := map lower (list_ascii_of_string n2) in
      (negb (text_eqb (skipn (length a - length b) a) b)
       || Nat.leb (length a) (length b))%bool) month_tokens) month_tokens.

(** A mention that names no date of its year, or that cannot be read at
    all. *)
Definition names_no_date (default_year : Z) (date_str : string) : Prop :=
  match read_mention (list_ascii_of_string date_str) with
  | None => True
  | Some (m, d, y) =>
      valid_date {| year := match y with Some y' => y' | None => default_year end;
                    month := m; day := d |} = false
  end.

(** The text source of the pipeline: lines 41 to 45 of
    [extract_dates_from_pdf]. *)
Definition text_source (fitz_open : string -> outcome document)
           (pdf_path : string) : M string :=
  (doc <- lift (fitz_open pdf_path) ;;
   text <- read_pages (pages doc) "" ;;
   lift (close doc) ;;
   ret text)%monad.

(** The table of [get_user_tasks] for the tasks entered, each with its
    name, day, start time, end time and description. *)
Definition user_tasks
           (tasks : list (string * string * string * string * string))
  : DataFrame :=
  frame_of_records
    (map (fun t => match t with
                   | (task_name, day, start_time, end_time, description) =>
                       task_record task_name day start_time end_time description
                   end) tasks).

Definition task_row (t : string * string * string * string * string)
  : list string :=
  match t with
  | (task_name, day, start_time, end_time, description) =>
      [task_name; day; start_time; end_time; description]
  end.

Definition syllabus_row (d : date) : list string :=
  ["Syllabus Event"; strftime "%A" d; "N/A"; "N/A"; strftime "%B %d, %Y" d].

(** The matches lie in the text one after the other, apart. *)
Inductive laid_out : text -> list text -> Prop :=
| laid_out_nil s : laid_out s []
| laid_out_cons gap m s l :
    laid_out s l -> laid_out (gap ++ m ++ s) (m :: l).

(** ** Answers typed at the terminal *)

(** [str.strip()]: white space is what [str.isspace] accepts, the same
    characters as [\s]. *)
Fixpoint lstrip (s : text) : text :=
  match s with
  | c :: s' => if is_space c then lstrip s' else s
  | [] => []
  end.

Definition rstrip (s : text) : text := rev (lstrip (rev s)).

Definition strip (s : string) : string :=
  string_of_list_ascii (rstrip (lstrip (list_ascii_of_string s))).

(** [str.lower()] *)
Definition str_lower (s : string) : string :=
  string_of_list_ascii (map lower (list_ascii_of_string s)).

(** [str.endswith(suffix)] *)
Definition endswith (s suffix : string) : bool :=
  let l := list_ascii_of_string s in
  let x := list_ascii_of_string suffix in
  (Nat.leb (length x) (length l)
   && text_eqb (skipn (length l - length x) l) x)%bool.

(** Lines 183 to 187 of [main]: the name of the file to save to, from
    the answer typed. *)
Definition export_filename (answer : string) : string :=
  let filename := strip answer in
  let filename :=
      if String.eqb filename "" then "my_schedule.csv" else filename in
  if endswith filename ".csv" then filename else (filename ++ ".csv")%string.

(** The terminal: the lines still to be typed, one for each [input], and
    what has been written to it, latest first: the lines printed and
    the prompts, which have no line end. *)
Inductive written :=
| Printed (line : string)
| Prompted (prompt : string).

Record terminal := { stdin : list string; screen : list written }.

Definition T (A : Type) : Type := terminal -> outcome A * terminal.

Definition answer {A} (a : A) : T A := fun t => (Returned a, t).

Definition then_ {A B} (c : T A) (k : A -> T B) : T B :=
  fun t =>
    match c t with
    | (Returned a, t') => k a t'
    | (Raised e, t') => (Raised e, t')
    end.

Definition say (line : string) : T unit :=
  fun t => (Returned tt,
            {| stdin := stdin t; screen := Printed line :: screen t |}).

Definition EOFError : exn :=
  {| is_Exception := true; message := "EOF when reading a line" |}.

(** [input(prompt)]: the prompt is written, then a line is read, without
    its end; at the end of the input [EOFError] is raised. *)
Definition input (prompt : string) : T string :=
  fun t =>
    let t' := {| stdin := tl (stdin t);
                 screen := Prompted prompt :: screen t |} in
    match stdin t with
    | line :: _ => (Returned line, t')
    | [] => (Raised EOFError, t')
    end.

Declare Scope terminal_scope.
Delimit Scope terminal_scope with terminal.
Notation "x <- c ;; k" := (then_ c (fun x => k))
  (at level 61, c at next level, right associativity) : terminal_scope.
Notation "c ;; k" := (then_ c (fun _ => k))
  (at level 61, right associativity) : terminal_scope.

Section Tasks.

(** [str.capitalize()] can leave the code points below 256 (the capital
    of 0xff is U+0178): it is a parameter. *)
Variable capitalize : string -> string.

(** The loop of lines 15 to 31; every turn reads a line, so a turn for
    each line to come and one more are enough. *)
Fixpoint task_loop (turns : nat) (tasks : list dict) : T (list dict) :=
  match turns with
  | O => answer tasks
  | S turns' =>
      (task_name <- input "Task name (or 'done'): " ;;
       let task_name := strip task_name in
       if String.eqb (str_lower task_name) "done" then answer tasks
       else
         day <- input "Day of the week (e.g., Monday): " ;;
         let day := capitalize (strip day) in
         start_time <- input "Start time (HH:MM, 24hr format): " ;;
         let start_time := strip start_time in
         end_time <- input "End time (HH:MM, 24hr format): " ;;
         let end_time := strip end_time in
         description <- input "Optional description: " ;;
         let description := strip description in
         task_loop turns'
           (tasks ++ [task_record task_name day start_time end_time
                                  description]))%terminal
  end.

Definition get_user_tasks : T DataFrame :=
  fun t =>
    (say (String newline
            "Enter your tasks one by one. Type 'done' when finished.") ;;
     tasks <- task_loop (S (length (stdin t))) [] ;;
     answer (frame_of_records tasks))%terminal t.

(** A task as typed, line by line, and as recorded. *)
Definition typed_task : Type := string * string * string * string * string.

Definition typed_lines (t : typed_task) : list string :=
  match t with
  | (task_name, day, start_time, end_time, description) =>
      [task_name; day; start_time; end_time; description]
  end.

Definition recorded (t : typed_task) : typed_task :=
  match t with
  | (task_name, day, start_time, end_time, description) =>
      (strip task_name, capitalize (strip day), strip start_time,
       strip end_time, strip description)
  end.

End Tasks.

(** The line that ends the input of tasks. *)
Definition is_done (line : string) : bool :=
  String.eqb (str_lower (strip line)) "done".

Definition task_name_of (t : typed_task) : string :=
  match t with
  | (task_name, _, _, _, _) => task_name
  end.

(** What the terminal shows for one task, latest first. *)
Definition task_prompts : list written :=
  [Prompted "Optional description: ";
   Prompted "End time (HH:MM, 24hr format): ";
   Prompted "Start time (HH:MM, 24hr format): ";
   Prompted "Day of the week (e.g., Monday): ";
   Prompted "Task name (or 'done'): "].

(** ** The display *)

Definition KeyError (key : string) : exn :=
  {| is_Exception := true; message := "'" ++ key ++ "'" |}.

(** [row[key]] *)
Definition getitem (row : dict) (key : string) : M string :=
  match lookup key row with
  | Some v => ret v
  | None => lift (Raised (KeyError key))
  end.

(** [df[df[key] == value]]: the rows with this value in the column, on
    the columns of the table. *)
Definition where_equal (df : DataFrame) (key value : string) : M DataFrame :=
  if existsb (String.eqb key) (columns df)
  then ret {| columns := columns df;
              rows := filter (fun r => String.eqb (cell (combine (columns df) r) key)
                                                  value)
                             (rows df) |}
  else lift (Raised (KeyError key)).

(** [str.upper()] for text without the three letters below code point
    256 whose capital is not one letter below 256 (0xb5, 0xdf, 0xff). *)
Definition upper (c : ascii) : ascii :=
  if (is_lower c || between 224 246 c || between 248 254 c)%bool
  then ascii_of_N (code c - 32) else c.

Definition str_upper (s : string) : string :=
  string_of_list_ascii (map upper (list_ascii_of_string s)).

(** [s * n] *)
Definition times (s : string) (n : nat) : string :=
  String.concat "" (repeat s n).

(** [f"{s:<width}"] *)
Definition ljust (width : nat) (s : string) : string :=
  (s ++ times " " (width - String.length s))%string.

Fixpoint for_each {A} (l : list A) (body : A -> M unit) : M unit :=
  match l with
  | [] => ret tt
  | x :: l' => body x ;; for_each l' body
  end.

Definition days_order : list string :=
  ["Monday"; "Tuesday"; "Wednesday"; "Thursday"; "Friday"; "Saturday";
   "Sunday"].

Section Display.

(** The mark before the name of a day, U+1F4C5, lies beyond code point
    255: it is a parameter. *)
Variable calendar_mark : string.

(** Lines 88 to 92: the lines of one task. *)
Definition show_task (columns : list string) (r : list string) : M unit :=
  let task := combine columns r in
  start_time <- getitem task "Start Time" ;;
  time_str <-
    (if negb (String.eqb start_time "N/A")
     then start_time <- getitem task "Start Time" ;;
          end_time <- getitem task "End Time" ;;
          ret (start_time ++ " - " ++ end_time)%string
     else ret "All Day") ;;
  task_name <- getitem task "Task" ;;
  print ("  " ++ ljust 15 time_str ++ " | " ++ task_name) ;;
  description <- getitem task "Description" ;;
  if negb (String.eqb description "")
  then print ("  " ++ ljust 15 "" ++ " | Description: " ++ description)
  else ret tt.

(** The cells are strings, as in every table that the program builds. *)
Definition display_schedule (schedule_df : DataFrame) : M unit :=
  if empty schedule_df then print "No schedule items to display."
  else
    print (String newline (times "=" 80)) ;;
    print "                        FULL SCHEDULE" ;;
    print (times "=" 80) ;;
    for_each days_order
      (fun day =>
         day_tasks <- where_equal schedule_df "Day" day ;;
         if negb (empty day_tasks)
         then
           print (String newline (calendar_mark ++ " " ++ str_upper day)) ;;
           print (times "-" 40) ;;
           for_each (rows day_tasks) (show_task (columns day_tasks)) ;;
           print ""
         else ret tt).

End Display.

(** The lines that the display prints for a task of the five columns. *)
Definition task_lines (r : list string) : list string :=
  let e := entry_of_row schedule_columns r in
  let time_str :=
      if String.eqb (StartTime e) "N/A" then "All Day"
      else (StartTime e ++ " - " ++ EndTime e)%string in
  ("  " ++ ljust 15 time_str ++ " | " ++ Task e)%string
  :: (if String.eqb (Description e) "" then []
      else [("  " ++ ljust 15 "" ++ " | Description: " ++ Description e)%string]).

(** The world after some lines have been printed, first to last. *)
Definition printed (lines : list string) (w : world) : world :=
  {| stdout := rev lines ++ stdout w; files := files w |}.

(** The lines that open the display. *)
Definition banner : list string :=
  [String newline (times "=" 80);
   "                        FULL SCHEDULE";
   times "=" 80].

(** The lines of a day: nothing when no task is on this day, or else the
    heading, a rule, the lines of the tasks of the day in the order of
    the table, and an empty line. *)
Definition day_block (calendar_mark : string) (rs : list (list string))
           (day : string) : list string :=
  match filter (fun r => String.eqb (Day (entry_of_row schedule_columns r)) day)
               rs with
  | [] => []
  | day_tasks =>
      [String newline (calendar_mark ++ " " ++ str_upper day); times "-" 40]
      ++ flat_map task_lines day_tasks ++ [""%string]
  end.

(** What stands after a field in a line: the delimiter or the end of
    the line. *)
Definition ends_field (t : string) : Prop :=
  match t with
  | String c _ => c = ","%char \/ c = newline
  | EmptyString => False
  end.

(** Tables of two columns or more, every row with two cells or more. *)
Definition wide (df : DataFrame) : Prop :=
  2 <= length (columns df) /\ Forall (fun r => 2 <= length r) (rows df).

(** * Properties *)

(** ** Lists *)

Lemma map_seq_nth A B (f : A -> B) (l : list A) (d : A) :
  map (fun i => f (nth i l d)) (seq 0 (length l)) = map f l.
Proof.
  induction l as [|a l IH]; simpl; [reflexivity|].
  f_equal. rewrite <- seq_shift, map_map. exact IH.
Qed.

Lemma nth_repeat_lt A (x d : A) n i : i < n -> nth i (repeat x n) d = x.
Proof.
  revert i; induction n as [|n IH]; intros [|i] H; simpl; try lia; auto.
  apply IH; lia.
Qed.

(** ** The normalizer *)

Lemma parse_loop_spec parser ms acc w :
  parse_loop parser ms acc w = (Returned (acc ++ parsed parser ms), w).
Proof.
  revert acc; induction ms as [|m ms IH]; intros acc; simpl.
  - unfold ret. now rewrite app_nil_r.
  - unfold bind at 1, try_except, bind, lift, ret.
    destruct (parser m) as [dt|e]; rewrite IH.
    + now rewrite <- app_assoc.
    + reflexivity.
Qed.

Lemma normalize_spec parser ms w :
  normalize parser ms w = (Returned (parsed parser ms), w).
Proof. unfold normalize. now rewrite parse_loop_spec. Qed.

Lemma parsed_app parser l1 l2 :
  parsed parser (l1 ++ l2) = parsed parser l1 ++ parsed parser l2.
Proof. unfold parsed. apply flat_map_app. Qed.

Lemma parsed_length parser ms : length (parsed parser ms) <= length ms.
Proof.
  induction ms as [|m ms IH]; simpl; [lia|].
  destruct (parser m); simpl; lia.
Qed.

(** ** Characters *)

Ltac splits := repeat match goal with |- _ /\ _ => split end.

Ltac by_char c :=
  destruct c as [[|] [|] [|] [|] [|] [|] [|] [|]]; vm_compute;
  try reflexivity; try discriminate; try tauto.

Lemma digit_not_space c : is_digit c = true -> is_space c = false.
Proof. by_char c. Qed.

Lemma digit_not_alpha c : is_digit c = true -> is_alpha c = false.
Proof. by_char c. Qed.

Lemma space_not_alpha c : is_space c = true -> is_alpha c = false.
Proof. by_char c. Qed.

Lemma space_not_digit c : is_space c = true -> is_digit c = false.
Proof. by_char c. Qed.

Lemma alpha_not_space c : is_alpha c = true -> is_space c = false.
Proof. by_char c. Qed.

Lemma alpha_not_digit c : is_alpha c = true -> is_digit c = false.
Proof. by_char c. Qed.

Lemma alpha_is_word c : is_alpha c = true -> is_word c = true.
Proof. by_char c. Qed.

Lemma alpha_lower c : is_alpha (lower c) = is_alpha c.
Proof. by_char c. Qed.

Lemma chr_eq_dot c : chr_eq true "." c = true -> c = "."%char.
Proof. by_char c. Qed.

Lemma chr_eq_comma c : chr_eq true "," c = true -> c = ","%char.
Proof. by_char c. Qed.

Lemma chr_eq_lower a c : chr_eq true a c = true <-> lower a = lower c.
Proof. unfold chr_eq. apply Ascii.eqb_eq. Qed.

(** ** Runs of characters *)

Lemma span_app f s a b : span f s = (a, b) -> s = a ++ b.
Proof.
  revert a b; induction s as [|c s IH]; simpl; intros a b H.
  - now inversion H.
  - destruct (f c).
    + destruct (span f s) as [a' b'] eqn:E. inversion H; subst.
      simpl. f_equal. now apply IH.
    + now inversion H.
Qed.

Lemma span_all f s a b : span f s = (a, b) -> all f a.
Proof.
  revert a b; induction s as [|c s IH]; simpl; intros a b H.
  - inversion H. constructor.
  - destruct (f c) eqn:Ec.
    + destruct (span f s) as [a' b'] eqn:E. inversion H; subst.
      constructor; [assumption|]. eapply IH; reflexivity.
    + inversion H. constructor.
Qed.

Lemma span_stops f s a b : span f s = (a, b) -> stops f b.
Proof.
  revert a b; induction s as [|c s IH]; simpl; intros a b H.
  - inversion H. exact I.
  - destruct (f c) eqn:Ec.
    + destruct (span f s) as [a' b'] eqn:E. inversion H; subst.
      eapply IH; reflexivity.
    + inversion H; subst. exact Ec.
Qed.

Lemma span_unique f a b : all f a -> stops f b -> span f (a ++ b) = (a, b).
Proof.
  intros Ha Hb. induction Ha as [|c a Hc Ha IH]; simpl.
  - destruct b as [|c b]; simpl in *; [reflexivity|]. now rewrite Hb.
  - rewrite Hc, IH. reflexivity.
Qed.

Lemma last_char_nil prev : last_char prev [] = prev.
Proof. reflexivity. Qed.

Lemma last_cons A (l : list A) x d : last (x :: l) d = last l x.
Proof.
  revert x d; induction l as [|y l IH]; intros x d; [reflexivity|].
  change (last (x :: y :: l) d) with (last (y :: l) d).
  now rewrite !IH.
Qed.

Lemma last_char_cons prev c m : last_char prev (c :: m) = last_char (Some c) m.
Proof. unfold last_char. simpl map. apply last_cons. Qed.

Lemma last_char_app prev m1 m2 :
  last_char prev (m1 ++ m2) = last_char (last_char prev m1) m2.
Proof.
  revert prev; induction m1 as [|c m1 IH]; intros prev; simpl.
  - reflexivity.
  - now rewrite !last_char_cons, IH.
Qed.

(** ** The matcher finds what the pattern denotes *)

Lemma str_match_denotes ic l : forall prev s p' s',
  In (p', s') (str_match ic l prev s) <->
  exists m, s = m ++ s' /\ p' = last_char prev m
            /\ Forall2 (fun a c => chr_eq ic a c = true) l m.
Proof.
  induction l as [|a l IH]; intros prev s p' s'; simpl.
  - split.
    + intros [H|[]]. inversion H; subst. exists []. repeat split. constructor.
    + intros (m & -> & -> & H). inversion H; subst. now left.
  - destruct s as [|c s].
    + split; [intros []|]. intros (m & Hs & _ & H).
      inversion H; subst. discriminate.
    + destruct (chr_eq ic a c) eqn:E.
      * rewrite IH. split.
        -- intros (m & -> & -> & H). exists (c :: m).
           rewrite last_char_cons. repeat split. now constructor.
        -- intros (m & Hs & -> & H). inversion H; subst.
           inversion Hs; subst. eexists. rewrite last_char_cons.
           repeat split. assumption.
      * split; [intros []|]. intros (m & Hs & _ & H).
        inversion H; subst. inversion Hs; subst. congruence.
Qed.

Lemma rep_one_denotes ic i : forall s lo hi prev p' s',
  In (p', s') (rep_one ic i lo hi prev s) <->
  exists m, s = m ++ s' /\ p' = last_char prev m
            /\ Forall (fun c => item_match ic i c = true) m
            /\ lo <= length m /\ within hi (length m).
Proof.
  assert (Hnil : forall lo hi, lo = 0 ->
            Forall (fun c => item_match ic i c = true) []
            /\ lo <= @length ascii [] /\ within hi (@length ascii [])).
  { intros lo hi ->. splits; [constructor | simpl; lia |].
    destruct hi; simpl; lia. }
  induction s as [|c s IH]; intros lo hi prev p' s'.
  - simpl. split.
    + destruct (Nat.eqb_spec lo 0); [|intros []].
      intros [H|[]]. inversion H; subst. exists []. auto.
    + intros (m & Hs & -> & _ & Hlo & _).
      symmetry in Hs. apply app_eq_nil in Hs as [-> ->]. simpl in Hlo.
      destruct (Nat.eqb_spec lo 0); [now left | lia].
  - cbn [rep_one].
    assert (Hstop : forall p s0,
               In (p, s0) (if Nat.eqb lo 0 then [(prev, c :: s)] else [])
               <-> lo = 0 /\ p = prev /\ s0 = c :: s).
    { intros p s0. destruct (Nat.eqb_spec lo 0); simpl; split.
      - intros [H|[]]. inversion H. auto.
      - intros (_ & -> & ->). now left.
      - intros [].
      - intros (H & _). lia. }
    destruct (item_match ic i c
              && negb match hi with Some 0 => true | _ => false end)%bool eqn:E.
    + apply andb_true_iff in E as [Ei Eh].
      rewrite in_app_iff, IH, Hstop. split.
      * intros [(m & -> & -> & Hm & Hlo & Hhi)|(-> & -> & ->)].
        -- exists (c :: m). rewrite last_char_cons. splits; try reflexivity.
           ++ now constructor.
           ++ simpl. lia.
           ++ destruct hi as [[|h]|]; simpl in *; try lia; discriminate.
        -- exists []. auto.
      * intros (m & Hs & -> & Hm & Hlo & Hhi). destruct m as [|x m].
        -- right. simpl in *. splits; auto. lia.
        -- left. inversion Hs; subst. inversion Hm; subst. exists m.
           rewrite last_char_cons. splits; auto.
           ++ simpl in Hlo. lia.
           ++ destruct hi as [[|h]|]; simpl in *; lia.
    + rewrite Hstop. split.
      * intros (-> & -> & ->). exists []. auto.
      * intros (m & Hs & -> & Hm & Hlo & Hhi). destruct m as [|x m].
        -- simpl in *. splits; auto. lia.
        -- exfalso. inversion Hs; subst. inversion Hm; subst.
           apply andb_false_iff in E as [E|E]; [congruence|].
           destruct hi as [[|h]|]; simpl in *; try discriminate; lia.
Qed.

Theorem matches_denotes ic r : forall prev s p' s',
  In (p', s') (matches ic r prev s) <->
  exists m, s = m ++ s' /\ p' = last_char prev m /\ denotes ic r prev m s'.
Proof.
  induction r as [l| |r1 IH1 r2 IH2|r1 IH1 r2 IH2|r1 IH1|lo hi i];
    intros prev s p' s'; cbn [matches denotes].
  - apply str_match_denotes.
  - destruct (at_boundary prev s) eqn:E; simpl; split.
    + intros [H|[]]. inversion H; subst. exists []. auto.
    + intros (m & -> & -> & -> & _). now left.
    + intros [].
    + intros (m & -> & _ & -> & H). simpl in *. congruence.
  - rewrite in_flat_map. split.
    + intros ([p1 s1] & H1 & H2). simpl in H2.
      apply IH1 in H1 as (m1 & -> & -> & D1).
      apply IH2 in H2 as (m2 & -> & -> & D2).
      exists (m1 ++ m2). rewrite <- app_assoc, last_char_app.
      repeat split. exists m1, m2. auto.
    + intros (m & -> & -> & m1 & m2 & -> & D1 & D2).
      exists (last_char prev m1, m2 ++ s'). split.
      * apply IH1. exists m1. rewrite <- app_assoc. auto.
      * simpl. apply IH2. exists m2. rewrite last_char_app. auto.
  - rewrite in_app_iff, IH1, IH2. split.
    + intros [(m & ? & ? & ?)|(m & ? & ? & ?)]; exists m; auto.
    + intros (m & ? & ? & [?|?]); [left|right]; exists m; auto.
  - rewrite in_app_iff, IH1. split.
    + intros [(m & ? & ? & ?)|[H|[]]]; [exists m; auto|].
      inversion H; subst. exists []. auto.
    + intros (m & Hs & Hp & [D|E]); [left; exists m; auto|].
      right. left. subst. reflexivity.
  - rewrite rep_one_denotes. unfold within. split.
    + intros (m & ? & ? & ? & ? & ?); exists m; auto.
    + intros (m & ? & ? & ? & ? & ?); exists m; auto.
Qed.

(** ** The first match of the pattern at a position *)

Lemma first_rest_app a b :
  first_rest (a ++ b) =
  match first_rest a with Some r => Some r | None => first_rest b end.
Proof. destruct a as [|[p r] a]; reflexivity. Qed.

Lemma flat_map_all_nil A B (f : A -> list B) l :
  (forall x, In x l -> f x = []) -> flat_map f l = [].
Proof.
  induction l as [|x l IH]; intros H; simpl; [reflexivity|].
  rewrite (H x), IH; auto using in_eq, in_cons.
Qed.

Lemma flat_map_only A (f : A -> list pos) l x0 :
  (forall x, In x l -> f x = [] \/ x = x0) -> In x0 l ->
  first_rest (flat_map f l) = first_rest (f x0).
Proof.
  intros H Hin.
  assert (Hnil : f x0 = [] -> flat_map f l = []).
  { intros E. apply flat_map_all_nil. intros x Hx.
    destruct (H x Hx) as [?| ->]; assumption. }
  destruct (f x0) as [|y ys] eqn:E; [now rewrite Hnil|]. clear Hnil.
  induction l as [|x l IH]; [destruct Hin|]. simpl.
  destruct (H x (in_eq _ _)) as [Ex| ->].
  - rewrite Ex. simpl. destruct Hin as [->|Hin]; [congruence|].
    apply IH; auto using in_cons.
  - rewrite E. reflexivity.
Qed.

Lemma rep_one_zero ic i p s : rep_one ic i 0 (Some 0) p s = [(p, s)].
Proof. destruct s; simpl; [reflexivity|]. now rewrite andb_false_r. Qed.

(** A greedy repeat followed by something that cannot start with the
    repeated item: only the longest run is followed. *)
Lemma rep_greedy ic i (f : pos -> list pos) :
  (forall p c s, item_match ic i c = true -> f (p, c :: s) = []) ->
  forall s lo prev,
    flat_map f (rep_one ic i lo None prev s) =
    let (ws, s3) := span (item_match ic i) s in
    if Nat.leb lo (length ws) then f (last_char prev ws, s3) else [].
Proof.
  intros Hf. induction s as [|c s IH]; intros lo prev.
  - simpl. destruct lo; simpl; [now rewrite app_nil_r | reflexivity].
  - cbn [rep_one span]. destruct (item_match ic i c) eqn:E; simpl andb; cbv iota.
    + rewrite flat_map_app, IH. simpl option_map.
      destruct (span (item_match ic i) s) as [ws s3].
      rewrite last_char_cons.
      destruct lo as [|lo]; simpl.
      * now rewrite Hf, !app_nil_r.
      * now rewrite app_nil_r.
    + destruct lo; simpl; [now rewrite app_nil_r | reflexivity].
Qed.

Lemma four_digits_first p t :
  first_rest (rep_one true (Cat Digit) 4 (Some 4) p t) = four_digits t.
Proof.
  unfold four_digits.
  destruct t as [|a [|b [|c [|d t]]]]; cbn [rep_one item_match in_category];
    try destruct (is_digit a); try destruct (is_digit b);
    try destruct (is_digit c); try destruct (is_digit d);
    simpl; try reflexivity.
  now rewrite rep_one_zero.
Qed.

Lemma digits_after_space p c s :
  is_space c = true -> rep_one true (Cat Digit) 4 (Some 4) p (c :: s) = [].
Proof. intros H. simpl. now rewrite (space_not_digit _ H). Qed.

Lemma after_year_other c t : c <> ","%char -> after_year (c :: t) = c :: t.
Proof.
  intros H. destruct c as [[|] [|] [|] [|] [|] [|] [|] [|]]; try reflexivity.
  now destruct H.
Qed.

Lemma year_first p s :
  first_rest (matches true year_part p s ++ [(p, s)]) = Some (after_year s).
Proof.
  destruct s as [|c t]; [reflexivity|].
  unfold year_part. cbn [matches rep_one item_match].
  destruct (chr_eq true "," c) eqn:E; simpl andb; cbv iota.
  - apply chr_eq_comma in E. subst c.
    rewrite rep_one_zero. simpl flat_map at 1. rewrite !app_nil_r.
    cbn [fst snd].
    rewrite (rep_greedy true (Cat Space)
               (fun q => rep_one true (Cat Digit) 4 (Some 4) (fst q) (snd q))).
    2:{ intros q c s H. apply digits_after_space. exact H. }
    change (span (item_match true (Cat Space)) t) with (span is_space t).
    cbn [after_year].
    destruct (span is_space t) as [ws t2].
    destruct ws as [|w ws]; simpl Nat.leb; cbv iota; [reflexivity|].
    rewrite first_rest_app. cbn [fst snd]. rewrite four_digits_first.
    destruct (four_digits t2); reflexivity.
  - rewrite after_year_other; [reflexivity|].
    intros ->. vm_compute in E. discriminate.
Qed.

Lemma date_pattern_parts :
  date_pattern = (Boundary @@ month_names @@ after_month)%re.
Proof. reflexivity. Qed.

Lemma day_first p s :
  first_rest (matches true after_blanks p s) = option_map after_year (after_day s).
Proof.
  destruct s as [|d1 s4]; [reflexivity|].
  unfold after_blanks.
  cbn [matches rep_one item_match in_category after_day Nat.pred option_map Nat.eqb].
  destruct (is_digit d1); simpl andb; cbv iota; [|reflexivity].
  rewrite app_nil_r.
  destruct s4 as [|d2 s5].
  - cbn [rep_one Nat.eqb flat_map fst snd]. rewrite app_nil_r.
    now rewrite year_first.
  - cbn [rep_one item_match in_category Nat.pred option_map Nat.eqb].
    destruct (is_digit d2); simpl andb; cbv iota.
    + rewrite rep_one_zero. cbn [flat_map app fst snd].
      rewrite first_rest_app, year_first. reflexivity.
    + cbn [flat_map fst snd]. rewrite app_nil_r. now rewrite year_first.
Qed.

Lemma day_after_space p c s :
  is_space c = true -> matches true after_blanks p (c :: s) = [].
Proof.
  intros H. unfold after_blanks. cbn [matches rep_one item_match in_category].
  now rewrite (space_not_digit _ H).
Qed.

Lemma strip_dot_other c t : c <> "."%char -> strip_dot (c :: t) = c :: t.
Proof.
  intros H. destruct c as [[|] [|] [|] [|] [|] [|] [|] [|]]; try reflexivity.
  now destruct H.
Qed.

Lemma blanks_first p s :
  first_rest (matches true (Rep 1 None (Cat Space) @@ after_blanks)%re p s) =
  let (ws, s3) := span is_space s in
  match ws with
  | [] => None
  | _ :: _ => option_map after_year (after_day s3)
  end.
Proof.
  cbn [matches].
  rewrite (rep_greedy true (Cat Space)
             (fun q => matches true after_blanks (fst q) (snd q))).
  2:{ intros q c s0 H. apply day_after_space. exact H. }
  change (span (item_match true (Cat Space)) s) with (span is_space s).
  destruct (span is_space s) as [ws s3].
  destruct ws as [|w ws]; simpl Nat.leb; cbv iota; [reflexivity|].
  cbn [fst snd]. apply day_first.
Qed.

Lemma tail_first p s1 :
  first_rest (matches true after_month p s1) = tail_end s1.
Proof.
  unfold after_month, tail_end.
  change (matches true (Rep 0 (Some 1) (Chr ".") @@ ?r)%re p s1)
    with (flat_map (fun q => matches true r (fst q) (snd q))
                   (rep_one true (Chr ".") 0 (Some 1) p s1)).
  destruct s1 as [|c t].
  - reflexivity.
  - cbn [rep_one item_match Nat.pred option_map Nat.eqb].
    destruct (chr_eq true "." c) eqn:E; simpl andb; cbv iota.
    + apply chr_eq_dot in E. subst c.
      rewrite rep_one_zero. cbn [flat_map app fst snd strip_dot].
      rewrite first_rest_app, blanks_first.
      destruct (span is_space t) as [ws s3].
      destruct ws as [|w ws]; [reflexivity|].
      destruct (option_map after_year (after_day s3)); reflexivity.
    + cbn [flat_map fst snd]. rewrite app_nil_r, blanks_first.
      rewrite strip_dot_other; [reflexivity|].
      intros ->. vm_compute in E. discriminate.
Qed.

(** ** Month tokens *)

Lemma forall2_same l m :
  Forall2 (fun a c => chr_eq true a c = true) l m <-> same_ignoring_case l m.
Proof.
  unfold same_ignoring_case. split.
  - induction 1 as [|a c l m H _ IH]; simpl; [reflexivity|].
    apply chr_eq_lower in H. congruence.
  - revert m; induction l as [|a l IH]; intros [|c m] H; simpl in H;
      try discriminate; constructor.
    + apply chr_eq_lower. congruence.
    + apply IH. congruence.
Qed.

Lemma Forall2_cut A B (P : A -> B -> Prop) n : forall l m,
  Forall2 P l m -> Forall2 P (firstn n l) (firstn n m)
                   /\ Forall2 P (skipn n l) (skipn n m).
Proof.
  induction n as [|n IH]; intros l m H; simpl.
  - split; [constructor | assumption].
  - destruct H as [|a b l m Hab H]; [split; constructor|].
    destruct (IH _ _ H). split; [constructor|]; assumption.
Qed.

Lemma text_eqb_eq a b : text_eqb a b = true <-> a = b.
Proof.
  revert b; induction a as [|x a IH]; intros [|y b]; simpl;
    try (split; congruence).
  rewrite andb_true_iff, Ascii.eqb_eq, IH. split.
  - intros [-> ->]. reflexivity.
  - intros H. inversion H. auto.
Qed.

Lemma is_month_token_iff tok : is_month_token tok = true <-> month_token tok.
Proof.
  unfold is_month_token, month_token. rewrite existsb_exists.
  split; intros (name & Hin & H); exists name; split; auto;
    apply text_eqb_eq; exact H.
Qed.

Lemma same_alpha a b :
  same_ignoring_case a b -> all is_alpha a -> all is_alpha b.
Proof.
  unfold same_ignoring_case, all. revert b.
  induction a as [|x a IH]; intros [|y b] H Ha; simpl in H;
    try discriminate; constructor; inversion Ha; subst.
  - rewrite <- alpha_lower. replace (lower y) with (lower x) by congruence.
    now rewrite alpha_lower.
  - apply IH; [congruence | assumption].
Qed.

Lemma month_tokens_alpha :
  forallb (fun name => forallb is_alpha (list_ascii_of_string name))
          month_tokens = true.
Proof. vm_compute. reflexivity. Qed.

Lemma month_token_alpha tok : month_token tok -> all is_alpha tok.
Proof.
  intros (name & Hin & H). apply (same_alpha H).
  pose proof month_tokens_alpha as Hall.
  rewrite forallb_forall in Hall. specialize (Hall name Hin).
  rewrite forallb_forall in Hall. apply Forall_forall. exact Hall.
Qed.

Lemma month_token_nonempty tok : month_token tok -> tok <> [].
Proof.
  intros H ->. apply is_month_token_iff in H. vm_compute in H. discriminate.
Qed.

Ltac month_case H :=
  first
    [ exact H
    | let H1 := fresh in
      let H2 := fresh in
      destruct (Forall2_cut 3 H) as [H1 H2];
      match type of H with
      | Forall2 _ _ ?t =>
          exists (firstn 3 t), (skipn 3 t);
          split; [symmetry; apply firstn_skipn|];
          split; [exact H1|];
          first [left; exact H2 | right; simpl in H2; now inversion H2]
      end ].

Lemma denotes_month prev tok after :
  denotes true month_names prev tok after <-> month_token tok.
Proof.
  split.
  - intros H. apply is_month_token_iff.
    unfold month_names, month_alt, lit in H. cbn [denotes] in H.
    repeat match type of H with _ \/ _ => destruct H as [H|H] end;
      try (destruct H as (m1 & m2 & -> & H1 & [H2| ->]);
           [apply forall2_same in H2|]);
      try apply forall2_same in H1; try apply forall2_same in H;
      unfold is_month_token, same_b, same_ignoring_case in *;
      rewrite ?map_app, ?app_nil_r;
      repeat match goal with E : _ = map lower _ |- _ => rewrite <- E; clear E end;
      vm_compute; reflexivity.
  - intros (name & Hin & H). apply forall2_same in H.
    unfold month_names, month_alt, lit. cbn [denotes].
    simpl in Hin.
    repeat destruct Hin as [<-|Hin]; try destruct Hin;
      repeat (first [solve [left; month_case H] | right]);
      solve [month_case H].
Qed.

Lemma tail_end_start r rest : tail_end r = Some rest -> r <> [] /\ stops is_alpha r.
Proof.
  unfold tail_end. destruct r as [|c t]; [discriminate|].
  intros H. split; [discriminate|]. simpl.
  destruct (ascii_dec c ".") as [->|Hc]; [reflexivity|].
  rewrite strip_dot_other in H by assumption.
  simpl in H. destruct (is_space c) eqn:Ec.
  - now apply space_not_alpha.
  - discriminate.
Qed.

Lemma months_first prev s :
  first_rest (matches true (month_names @@ after_month)%re prev s) = mention_end s.
Proof.
  cbn [matches]. unfold mention_end.
  destruct (span is_alpha s) as [tok0 s1] eqn:Es.
  set (f := fun q : pos => matches true after_month (fst q) (snd q)).
  assert (Hprod : forall x, In x (matches true month_names prev s) ->
            f x = [] \/ (x = (last_char prev tok0, s1)
                         /\ is_month_token tok0 = true)).
  { intros [p r] Hx. apply matches_denotes in Hx as (tok & -> & -> & D).
    apply denotes_month in D.
    destruct (f (last_char prev tok, r)) as [|y ys] eqn:Ef; [now left|right].
    assert (Ht : exists rest, tail_end r = Some rest).
    { rewrite <- (tail_first (last_char prev tok) r).
      change (matches true after_month (last_char prev tok) r)
        with (f (last_char prev tok, r)).
      rewrite Ef. exists (snd y). reflexivity. }
    destruct Ht as (rest & Ht). apply tail_end_start in Ht as [_ Hstop].
    rewrite (span_unique r (month_token_alpha D) Hstop) in Es.
    inversion Es; subst. split; [reflexivity|].
    now apply is_month_token_iff. }
  destruct (is_month_token tok0) eqn:Et.
  - rewrite (@flat_map_only _ f _ (last_char prev tok0, s1)).
    + apply tail_first.
    + intros x Hx. destruct (Hprod x Hx) as [?|[? _]]; auto.
    + apply matches_denotes. exists tok0. split; [now apply (span_app is_alpha)|].
      split; [reflexivity|]. apply denotes_month. now apply is_month_token_iff.
  - rewrite flat_map_all_nil; [reflexivity|].
    intros x Hx. destruct (Hprod x Hx) as [?|[_ ?]]; [assumption|congruence].
Qed.

Lemma span_alpha_start s tok s1 :
  span is_alpha s = (tok, s1) -> tok <> [] -> word_after s = true.
Proof.
  destruct s as [|c s]; simpl.
  - intros H. inversion H. congruence.
  - destruct (is_alpha c) eqn:E.
    + intros _ _. now apply alpha_is_word.
    + intros H. inversion H. congruence.
Qed.

Lemma mention_end_word s rest : mention_end s = Some rest -> word_after s = true.
Proof.
  unfold mention_end. destruct (span is_alpha s) as [tok s1] eqn:Es.
  destruct (is_month_token tok) eqn:Et; [|discriminate].
  intros _. apply (@span_alpha_start _ _ _ Es).
  apply month_token_nonempty. now apply is_month_token_iff.
Qed.

Lemma pattern_first prev s :
  first_rest (matches true date_pattern prev s) = here prev s.
Proof.
  rewrite date_pattern_parts. unfold here.
  change (matches true (Boundary @@ ?r)%re prev s)
    with (flat_map (fun q => matches true r (fst q) (snd q))
                   (if at_boundary prev s then [(prev, s)] else [])).
  unfold at_boundary.
  destruct (mention_end s) as [rest|] eqn:Em.
  - rewrite (@mention_end_word _ _ Em).
    destruct (word_before prev); cbn [Bool.eqb negb flat_map fst snd];
      [reflexivity|].
    rewrite app_nil_r, months_first. exact Em.
  - destruct (word_before prev), (word_after s);
      cbn [Bool.eqb negb flat_map fst snd]; try reflexivity;
      rewrite app_nil_r, months_first; exact Em.
Qed.

(** ** The match at a position is the longest mention there *)

Lemma four_digits_spec t t3 :
  four_digits t = Some t3 -> exists y, t = y ++ t3 /\ digits 4 y.
Proof.
  unfold four_digits. destruct t as [|a [|b [|c [|d t]]]]; try discriminate.
  destruct (is_digit a) eqn:Ea, (is_digit b) eqn:Eb, (is_digit c) eqn:Ec,
           (is_digit d) eqn:Ed; try discriminate.
  intros H. inversion H; subst. exists [a; b; c; d].
  split; [reflexivity|]. split; [reflexivity|]. repeat constructor; assumption.
Qed.

Lemma four_digits_app y r : digits 4 y -> four_digits (y ++ r) = Some r.
Proof.
  intros [Hl Hd]. destruct y as [|a [|b [|c [|d [|e y]]]]]; try discriminate.
  inversion Hd as [|? ? Ha Hd1]; subst. inversion Hd1 as [|? ? Hb Hd2]; subst.
  inversion Hd2 as [|? ? Hc Hd3]; subst. inversion Hd3 as [|? ? He _]; subst.
  simpl. now rewrite Ha, Hb, Hc, He.
Qed.

Lemma after_year_spec s :
  exists yr, s = yr ++ after_year s /\ (yr = [] \/ year_suffix true yr).
Proof.
  destruct s as [|c t]; [exists []; auto|].
  destruct (ascii_dec c ",") as [->|Hc].
  - cbn [after_year]. destruct (span is_space t) as [ws t2] eqn:Es.
    destruct ws as [|w ws]; [exists []; auto|].
    destruct (four_digits t2) as [t3|] eqn:Ef; [|exists []; auto].
    apply four_digits_spec in Ef as (y & -> & Hy).
    exists (","%char :: (w :: ws) ++ y). split.
    + apply span_app in Es. rewrite Es. simpl. now rewrite <- !app_assoc.
    + right. exists (w :: ws), y. split; [reflexivity|].
      split; [exact (span_all _ _ Es)|]. split; [discriminate | assumption].
  - rewrite after_year_other by assumption. exists []; auto.
Qed.

Lemma after_year_le s : length (after_year s) <= length s.
Proof.
  destruct (after_year_spec s) as (yr & H & _).
  rewrite H at 2. rewrite length_app. lia.
Qed.

Lemma digits_stop n y r : digits (S n) y -> stops is_space (y ++ r).
Proof.
  intros [Hl Hd]. destruct y as [|a y]; [discriminate|].
  inversion Hd; subst. simpl. now apply digit_not_space.
Qed.

Lemma after_year_suffix yr r : year_suffix true yr -> after_year (yr ++ r) = r.
Proof.
  intros (ws & y & -> & Hws & Hne & Hy). simpl app. cbn [after_year].
  rewrite <- app_assoc, (span_unique (y ++ r) Hws (@digits_stop _ _ r Hy)).
  destruct ws as [|w ws]; [now destruct Hne|].
  now rewrite four_digits_app.
Qed.

Lemma after_day_spec s3 s5 :
  after_day s3 = Some s5 ->
  exists d, s3 = d ++ s5 /\ (digits 2 d \/ (digits 1 d /\ stops is_digit s5)).
Proof.
  unfold after_day. destruct s3 as [|d1 s4]; [discriminate|].
  destruct (is_digit d1) eqn:E1; [|discriminate].
  destruct s4 as [|d2 s4'].
  - intros H. inversion H; subst. exists [d1]. split; [reflexivity|].
    right. split; [|exact I]. split; [reflexivity|]. now repeat constructor.
  - destruct (is_digit d2) eqn:E2; intros H; inversion H; subst.
    + exists [d1; d2]. split; [reflexivity|]. left.
      split; [reflexivity|]. now repeat constructor.
    + exists [d1]. split; [reflexivity|]. right.
      split; [|exact E2]. split; [reflexivity|]. now repeat constructor.
Qed.

Lemma strip_dot_spec s :
  exists dot, s = dot ++ strip_dot s /\ (dot = [] \/ dot = ["."%char]).
Proof.
  destruct s as [|c t]; [exists []; auto|].
  destruct (ascii_dec c ".") as [->|Hc].
  - exists ["."%char]. auto.
  - rewrite strip_dot_other by assumption. exists []; auto.
Qed.

Lemma mention_end_sound s rest :
  mention_end s = Some rest -> exists m, s = m ++ rest /\ mention m.
Proof.
  unfold mention_end, tail_end.
  destruct (span is_alpha s) as [tok s1] eqn:Etok.
  destruct (is_month_token tok) eqn:Et; [|discriminate].
  destruct (strip_dot_spec s1) as (dot & Hs1 & Hdot).
  destruct (span is_space (strip_dot s1)) as [ws s3] eqn:Ews.
  destruct ws as [|w ws]; [discriminate|].
  destruct (after_day s3) as [s5|] eqn:Ed; [|discriminate].
  simpl. intros H. inversion H; subst rest; clear H.
  apply after_day_spec in Ed as (d & -> & Hd).
  destruct (after_year_spec s5) as (yr & Hs5 & Hyr).
  exists (tok ++ dot ++ (w :: ws) ++ d ++ yr). split.
  - apply span_app in Etok. apply span_app in Ews.
    rewrite Etok, Hs1, Ews, Hs5 at 1. now rewrite <- !app_assoc.
  - exists tok, dot, (w :: ws), d, yr. split; [reflexivity|].
    split; [now apply is_month_token_iff|]. split; [assumption|].
    split; [split; [discriminate | exact (span_all _ _ Ews)]|].
    split; [tauto | assumption].
Qed.

Lemma after_year_optional yr r :
  yr = [] \/ year_suffix true yr -> length (after_year (yr ++ r)) <= length r.
Proof.
  intros [->|H]; [apply after_year_le|]. now rewrite after_year_suffix.
Qed.

Lemma year_suffix_start b yr r :
  year_suffix b yr -> exists t, yr ++ r = ","%char :: t.
Proof. intros (ws & y & -> & _). simpl. eauto. Qed.

Lemma after_day_digits d yr r :
  digits 1 d \/ digits 2 d -> yr = [] \/ year_suffix true yr ->
  exists s5, after_day (d ++ yr ++ r) = Some s5
             /\ length (after_year s5) <= length r.
Proof.
  intros [[Hl Hd]|[Hl Hd]] Hyr.
  - destruct d as [|d1 [|d2 d]]; try discriminate.
    inversion Hd as [|? ? H1 _]; subst. simpl. rewrite H1.
    destruct Hyr as [->|Hyr].
    + simpl. destruct r as [|d2 r]; [eexists; split; [reflexivity|apply after_year_le]|].
      destruct (is_digit d2); eexists; (split; [reflexivity|]).
      * pose proof (after_year_le r). simpl. lia.
      * apply after_year_le.
    + destruct (@year_suffix_start _ _ r Hyr) as (t & E). rewrite E.
      replace (is_digit ",") with false by reflexivity. rewrite <- E.
      eexists; split; [reflexivity|]. rewrite after_year_suffix by assumption. lia.
  - destruct d as [|d1 [|d2 [|d3 d]]]; try discriminate.
    inversion Hd as [|? ? H1 Hd']; subst. inversion Hd' as [|? ? H2 _]; subst.
    simpl. rewrite H1, H2. eexists; split; [reflexivity|].
    now apply after_year_optional.
Qed.

Lemma mention_end_complete m r :
  mention m -> exists rest, mention_end (m ++ r) = Some rest
                            /\ length rest <= length r.
Proof.
  intros (tok & dot & ws & d & yr & -> & Htok & Hdot & [Hne Hws] & Hd & Hyr).
  rewrite <- !app_assoc. unfold mention_end, tail_end.
  destruct ws as [|w ws]; [now destruct Hne|].
  assert (Hw : is_space w = true) by now inversion Hws.
  rewrite (span_unique _ (month_token_alpha Htok)).
  2:{ destruct Hdot as [->| ->]; simpl; [now apply space_not_alpha|reflexivity]. }
  apply is_month_token_iff in Htok. rewrite Htok.
  assert (Es : strip_dot (dot ++ (w :: ws) ++ d ++ yr ++ r)
               = (w :: ws) ++ d ++ yr ++ r).
  { destruct Hdot as [->| ->]; [|reflexivity]. simpl.
    apply strip_dot_other. intros ->. discriminate. }
  rewrite Es.
  assert (Hd' : exists n, digits (S n) d) by (destruct Hd; eauto).
  destruct Hd' as (n & Hn).
  rewrite (span_unique _ Hws (@digits_stop _ _ (yr ++ r) Hn)).
  destruct (@after_day_digits _ _ r Hd Hyr) as (s5 & E5 & Hle).
  rewrite E5. simpl. eauto.
Qed.

Lemma app_same_length A (a b c d : list A) :
  a ++ b = c ++ d -> length a = length c -> a = c /\ b = d.
Proof.
  revert c; induction a as [|x a IH]; intros [|y c] H Hl; simpl in *;
    try discriminate; auto.
  inversion H; subst. destruct (IH c) as [-> ->]; auto.
Qed.

Lemma mention_nonempty b m : mention_shape b m -> m <> [].
Proof.
  intros (tok & dot & ws & d & yr & -> & Htok & _) H.
  apply app_eq_nil in H as [H _]. now apply month_token_nonempty in Htok.
Qed.

Lemma here_match prev s rest :
  here prev s = Some rest ->
  exists m, s = m ++ rest /\ m <> [] /\ mention_here prev s m.
Proof.
  unfold here. destruct (word_before prev) eqn:Ew; [discriminate|].
  intros H. destruct (mention_end_sound _ H) as (m & -> & Hm).
  exists m. split; [reflexivity|]. split; [exact (mention_nonempty Hm)|].
  split; [exact Ew|]. split; [eauto|]. split; [exact Hm|].
  intros m' rest' E Hm'.
  destruct (mention_end_complete rest' Hm') as (rest2 & E2 & Hle).
  rewrite <- E, H in E2. inversion E2; subst rest2.
  apply (f_equal (@length ascii)) in E. rewrite !length_app in E. lia.
Qed.

Lemma match_found prev s m :
  mention_here prev s m -> exists rest, here prev s = Some rest /\ s = m ++ rest.
Proof.
  intros (Hstart & (rest0 & ->) & Hm & Hmax).
  destruct (mention_end_complete rest0 Hm) as (rest & E & Hle).
  unfold here. rewrite Hstart, E. exists rest. split; [reflexivity|].
  destruct (mention_end_sound _ E) as (m1 & E1 & Hm1).
  pose proof (Hmax m1 rest E1 Hm1) as Hle1.
  assert (Hlen : length m = length m1).
  { apply (f_equal (@length ascii)) in E1. rewrite !length_app in E1. lia. }
  destruct (app_same_length _ _ _ _ E1 Hlen) as [_ ->]. reflexivity.
Qed.

Lemma no_match prev s : here prev s = None -> forall m, ~ mention_here prev s m.
Proof.
  intros H m Hm. apply match_found in Hm as (rest & E & _). congruence.
Qed.

Lemma match_unique prev s m1 m2 :
  mention_here prev s m1 -> mention_here prev s m2 -> m1 = m2.
Proof.
  intros H1 H2.
  apply match_found in H1 as (r1 & E1 & S1).
  apply match_found in H2 as (r2 & E2 & S2).
  rewrite E1 in E2. inversion E2; subst r2. rewrite S1 in S2.
  now apply app_inv_tail in S2.
Qed.

(** ** The loop of findall reports the matches, leftmost first *)

Lemma first_end_false s l : first_end false s l = hd_error l.
Proof. destruct l; reflexivity. Qed.

Lemma pattern_end prev s :
  first_end false s (matches true date_pattern prev s) =
  match here prev s with
  | Some rest => Some (last_char prev (firstn (length s - length rest) s), rest)
  | None => None
  end.
Proof.
  rewrite first_end_false. rewrite <- pattern_first. unfold first_rest.
  destruct (matches true date_pattern prev s) as [|[p r] l] eqn:E;
    [reflexivity|].
  assert (Hin : In (p, r) (matches true date_pattern prev s))
    by (rewrite E; apply in_eq).
  apply matches_denotes in Hin as (m & -> & -> & _).
  simpl. rewrite length_app.
  replace (length m + length r - length r) with (length m) by lia.
  now rewrite firstn_app, Nat.sub_diag, firstn_all, app_nil_r.
Qed.

Lemma search_scanned : forall s prev,
  match search true date_pattern false prev s with
  | None => scanned_mentions prev s []
  | Some (s0, (prev1, s1)) =>
      length s1 < length s0 /\ length s0 <= length s
      /\ forall l, scanned_mentions prev1 s1 l ->
                   scanned_mentions prev s
                     (firstn (length s0 - length s1) s0 :: l)
  end.
Proof.
  induction s as [|c s IH]; intros prev; cbn [search]; rewrite pattern_end.
  - destruct (here prev []) as [rest|] eqn:E; [|constructor].
    apply here_match in E as (m & E & Hne & _).
    symmetry in E. apply app_eq_nil in E as [-> _]. now destruct Hne.
  - destruct (here prev (c :: s)) as [rest|] eqn:E.
    + destruct (here_match _ _ E) as (m & Es & Hne & Hm).
      assert (Hl : length (c :: s) = length m + length rest)
        by (rewrite Es; apply length_app).
      assert (Hm0 : length m <> 0) by (destruct m; simpl; congruence).
      split; [lia|]. split; [lia|]. intros l Hl'.
      assert (Ef : firstn (length (c :: s) - length rest) (c :: s) = m).
      { rewrite Hl. replace (length m + length rest - length rest)
          with (length m) by lia.
        rewrite Es, firstn_app, Nat.sub_diag, firstn_all. apply app_nil_r. }
      rewrite Ef in *. rewrite Es in *. now constructor.
    + specialize (IH (Some c)).
      destruct (search true date_pattern false (Some c) s)
        as [[s0 [prev1 s1]]|].
      * destruct IH as (H1 & H2 & H3). split; [exact H1|].
        split; [simpl; lia|]. intros l Hl. constructor.
        -- now apply no_match.
        -- now apply H3.
      * constructor; [now apply no_match | exact IH].
Qed.

Lemma findall_scanned : forall fuel prev s,
  length s < fuel ->
  scanned_mentions prev s (findall_loop true fuel date_pattern false prev s).
Proof.
  induction fuel as [|fuel IH]; intros prev s Hf; [lia|].
  cbn [findall_loop]. pose proof (search_scanned s prev) as H.
  destruct (search true date_pattern false prev s) as [[s0 [prev1 s1]]|];
    [|exact H].
  destruct H as (H1 & H2 & H3).
  replace (Nat.eqb (length s1) (length s0)) with false
    by (symmetry; apply Nat.eqb_neq; lia).
  apply H3. apply IH. lia.
Qed.

Lemma scanned_unique prev s l1 :
  scanned_mentions prev s l1 -> forall l2, scanned_mentions prev s l2 -> l1 = l2.
Proof.
  induction 1 as [prev|prev c s l Hno _ IH|prev m rest l Hm _ IH];
    intros l2 H2.
  - remember (@nil ascii) as s eqn:Es.
    destruct H2 as [prev|prev c s l2 Hno H2|prev m' rest' l2 Hm' H2];
      [reflexivity | discriminate |].
    apply app_eq_nil in Es as [-> _].
    destruct Hm' as (_ & _ & Hs & _). now apply mention_nonempty in Hs.
  - remember (c :: s) as s0 eqn:Es.
    destruct H2 as [prev|prev c' s' l2 Hno' H2|prev m' rest' l2 Hm' H2].
    + discriminate.
    + inversion Es; subst. now apply IH.
    + destruct (Hno _ Hm').
  - remember (m ++ rest) as s eqn:Es.
    destruct H2 as [prev|prev c s l2 Hno H2|prev m' rest' l2 Hm' H2].
    + symmetry in Es. apply app_eq_nil in Es as [-> _].
      destruct Hm as (_ & _ & Hs & _). now apply mention_nonempty in Hs.
    + destruct (Hno _ Hm).
    + pose proof (match_unique Hm' Hm) as ->.
      apply app_inv_head in Es. subst rest'. f_equal. now apply IH.
Qed.

(** ** The scanner *)

Lemma string_of_list_ascii_inj a b :
  string_of_list_ascii a = string_of_list_ascii b -> a = b.
Proof.
  intros H. apply (f_equal list_ascii_of_string) in H.
  now rewrite !list_ascii_of_string_of_list_ascii in H.
Qed.

Lemma map_string_inj (l1 l2 : list text) :
  map string_of_list_ascii l1 = map string_of_list_ascii l2 -> l1 = l2.
Proof.
  revert l2; induction l1 as [|a l1 IH]; intros [|b l2] H; simpl in H;
    try discriminate; [reflexivity|].
  inversion H as [[Ha Hl]]. apply string_of_list_ascii_inj in Ha.
  apply IH in Hl. congruence.
Qed.

Lemma date_matches_scanned t : scanned_mentions None t (date_matches t).
Proof. unfold date_matches, findall. apply findall_scanned. lia. Qed.

(** C1 (amended): the scanner reports exactly the mentions of the text,
    leftmost first and without overlap, in the order of their first
    character, duplicates included.  A mention is a month token (a full
    English month name or its three-letter abbreviation, in any case),
    an optional period, one or more blanks, a day of one or two digits
    and, optionally, a comma, one or more blanks and a year of four
    digits; it is taken as long as possible, and only where the month
    token is not glued to a letter, digit or underscore before it. *)
Theorem scan_reports_mentions (t : string) (l : list text) :
  scanned_mentions None (list_ascii_of_string t) l
  <-> scan t = map string_of_list_ascii l.
Proof.
  unfold scan. split.
  - intros H. f_equal.
    symmetry. exact (scanned_unique H (date_matches_scanned _)).
  - intros H. apply map_string_inj in H. subst l.
    apply date_matches_scanned.
Qed.

Lemma scan_reports_mentions_witness :
  scanned_mentions None (list_ascii_of_string "See Jan 5")
                   [list_ascii_of_string "Jan 5"].
Proof. apply (scan_reports_mentions "See Jan 5"). reflexivity. Defined.

Lemma feb_14_claimed : claimed_mention (list_ascii_of_string "Feb 14").
Proof.
  exists (list_ascii_of_string "Feb"), [], (list_ascii_of_string " "),
    (list_ascii_of_string "14"), [].
  split; [reflexivity|]. split.
  { exists "Feb". split; [simpl; tauto | reflexivity]. }
  split; [now left|]. split.
  { split; [discriminate | repeat constructor]. }
  split; [|now left]. right. split; [reflexivity | repeat constructor].
Qed.

(** C1, as stated, fails: in "Week 3Feb 14" the text "Feb 14" is a month
    token, a blank and a day, but the scanner reports nothing, because
    the month token follows a digit without a word boundary. *)
Lemma scan_misses_glued_month :
  scan "Week 3Feb 14" = []
  /\ ~ claimed_scan None (list_ascii_of_string "Week 3Feb 14")
         (map list_ascii_of_string (scan "Week 3Feb 14")).
Proof.
  split; [vm_compute; reflexivity|].
  replace (scan "Week 3Feb 14") with (@nil string) by (vm_compute; reflexivity).
  cbn [map list_ascii_of_string]. intros H.
  do 6 (inversion H as [| ? ? ? ? _ H' |]; subst; clear H; rename H' into H).
  inversion H as [| ? ? ? ? Hno _ |]; subst.
  apply (Hno (list_ascii_of_string "Feb 14")).
  split; [exact I|]. split; [exists []; reflexivity|].
  split; [exact feb_14_claimed|].
  intros m' rest' E _. apply (f_equal (@length ascii)) in E.
  rewrite length_app in E. simpl in *. lia.
Qed.

(** C9: for the text "March 123" the scanner reports "March 12": nothing
    is asked of what follows the day, so the first two digits of a longer
    number are taken as the day. *)
Theorem scan_accepts_day_prefix :
  exists t, t = "March 123" /\ scan t = ["March 12"].
Proof. exists "March 123". split; [reflexivity | vm_compute; reflexivity]. Qed.

(** C10: for the text "Mar 3,2025", where no blank follows the comma, the
    scanner reports only "Mar 3"; with a blank after the comma the year
    is part of the match. *)
Theorem scan_year_needs_blank :
  exists t, t = "Mar 3,2025" /\ scan t = ["Mar 3"]
            /\ scan "Mar 3, 2025" = ["Mar 3, 2025"].
Proof.
  exists "Mar 3,2025". repeat split; vm_compute; reflexivity.
Qed.

(** ** Appending a mention to a text *)

Lemma no_alpha_app a b : no_alpha a -> no_alpha b -> no_alpha (a ++ b).
Proof. intros Ha Hb. apply Forall_app. now split. Qed.

Lemma all_no_alpha f s :
  (forall c, f c = true -> is_alpha c = false) -> all f s -> no_alpha s.
Proof. intros Hf H. eapply Forall_impl; [|exact H]. exact Hf. Qed.

(** A mention is its month token and a rest without letters. *)
Lemma mention_split b m :
  mention_shape b m ->
  exists tok rest, m = tok ++ rest /\ month_token tok
                   /\ rest <> [] /\ no_alpha rest.
Proof.
  intros (tok & dot & ws & d & yr & -> & Htok & Hdot & [Hne Hws] & Hd & Hyr).
  exists tok, (dot ++ ws ++ d ++ yr). split; [reflexivity|].
  split; [assumption|]. split.
  { intros H. apply app_eq_nil in H as [_ H]. apply app_eq_nil in H as [H _].
    contradiction. }
  apply no_alpha_app.
  { destruct Hdot as [->| ->]; repeat constructor. }
  apply no_alpha_app; [exact (all_no_alpha space_not_alpha Hws)|].
  apply no_alpha_app.
  { destruct Hd as [[_ H]|[_ H]]; exact (all_no_alpha digit_not_alpha H). }
  destruct Hyr as [->|(ws2 & y & -> & Hws2 & _ & _ & Hy)]; [constructor|].
  constructor; [reflexivity|]. apply no_alpha_app.
  - exact (all_no_alpha space_not_alpha Hws2).
  - exact (all_no_alpha digit_not_alpha Hy).
Qed.

Lemma month_tokens_suffix_free : suffix_free = true.
Proof. vm_compute. reflexivity. Qed.

(** No month token ends with another one. *)
Lemma no_token_suffix t tok : month_token (t ++ tok) -> month_token tok -> t = [].
Proof.
  intros (n1 & Hin1 & H1) (n2 & Hin2 & H2).
  pose proof month_tokens_suffix_free as Hs. unfold suffix_free in Hs.
  rewrite forallb_forall in Hs. specialize (Hs n1 Hin1).
  rewrite forallb_forall in Hs. specialize (Hs n2 Hin2). cbv zeta in Hs.
  unfold same_ignoring_case in H1, H2. rewrite map_app in H1.
  rewrite H1, H2 in Hs. rewrite length_app, !length_map in Hs.
  replace (length t + length tok - length tok) with (length (map lower t)) in Hs
    by (rewrite length_map; lia).
  rewrite skipn_app, Nat.sub_diag, skipn_all in Hs. simpl in Hs.
  assert (E : text_eqb (map lower tok) (map lower tok) = true)
    by now apply text_eqb_eq.
  rewrite E in Hs. simpl in Hs. apply Nat.leb_le in Hs.
  destruct t; [reflexivity | simpl in Hs; lia].
Qed.

Lemma span_inside f t a c b r :
  span f t = (a, c :: b) -> span f (t ++ r) = (a, (c :: b) ++ r).
Proof.
  intros H. pose proof (span_app _ _ H) as E. subst t.
  rewrite <- app_assoc. apply span_unique.
  - exact (span_all _ _ H).
  - exact (span_stops _ _ H).
Qed.

Lemma mention_starts_alpha b m r :
  mention_shape b m -> exists c s, m ++ r = c :: s /\ is_alpha c = true.
Proof.
  intros H. destruct (mention_split H) as (tok & rest & -> & Htok & _).
  pose proof (month_token_alpha Htok) as Ha.
  destruct tok as [|c tok]; [now apply month_token_nonempty in Htok|].
  inversion Ha; subst. exists c, (tok ++ rest ++ r).
  split; [now rewrite <- app_assoc | assumption].
Qed.

(** A mention that starts in a text to which a mention was appended ends
    inside the text. *)
Lemma no_straddle t m m' r' :
  t <> [] -> mention m -> mention m' -> t ++ m = m' ++ r' ->
  length m' <= length t.
Proof.
  intros Ht Hm Hm' E.
  destruct (mention_split Hm') as (tok' & rest' & -> & Htok' & Hne' & Hna').
  assert (Hstop' : stops is_alpha (rest' ++ r')).
  { destruct rest' as [|c rest']; [contradiction|]. now inversion Hna'. }
  assert (Es : span is_alpha (t ++ m) = (tok', rest' ++ r')).
  { rewrite E, <- app_assoc.
    exact (span_unique _ (month_token_alpha Htok') Hstop'). }
  destruct (span is_alpha t) as [a [|c b]] eqn:Et.
  - (* the text is made of letters only *)
    pose proof (span_app _ _ Et) as Ea. rewrite app_nil_r in Ea. subst a.
    destruct (mention_split Hm) as (tok & rest & -> & Htok & Hne & Hna).
    assert (Hstop : stops is_alpha rest).
    { destruct rest as [|c rest]; [contradiction|]. now inversion Hna. }
    rewrite app_assoc in Es.
    rewrite (span_unique rest) in Es.
    + inversion Es; subst tok'. exfalso. apply Ht.
      eapply no_token_suffix; eassumption.
    + apply Forall_app. split; [exact (span_all _ _ Et)|].
      exact (month_token_alpha Htok).
    + exact Hstop.
  - (* the month token ends inside the text *)
    rewrite (@span_inside is_alpha t a c b m Et) in Es.
    inversion Es as [[Ea Eb]]. subst a.
    rewrite length_app. pose proof (span_app _ _ Et) as Ea. subst t.
    rewrite length_app.
    enough (length rest' <= length (c :: b)) by lia.
    symmetry in Eb. change (c :: b ++ m) with ((c :: b) ++ m) in Eb.
    apply app_eq_app in Eb as (l & [[E1 E2]|[E1 E2]]).
    + destruct l as [|x l]; [rewrite E1, app_nil_r; lia|]. exfalso.
      destruct (@mention_starts_alpha _ _ [] Hm) as (y & s & Ey & Hy).
      rewrite app_nil_r, E2 in Ey. inversion Ey; subst y.
      rewrite E1 in Hna'.
      apply Forall_app in Hna' as [_ Hl]. inversion Hl; subst. congruence.
    + rewrite E1, length_app. lia.
Qed.

Lemma prefix_of_app A (t m x r : list A) :
  t ++ m = x ++ r -> length x <= length t -> exists r', t = x ++ r'.
Proof.
  intros E Hl. apply app_eq_app in E as (l & [[E1 _]|[E1 _]]).
  - eauto.
  - subst x. rewrite length_app in Hl. destruct l; [|simpl in Hl; lia].
    exists []. now rewrite !app_nil_r.
Qed.

Lemma match_extends prev t m0 m :
  mention m -> mention_here prev t m0 -> mention_here prev (t ++ m) m0.
Proof.
  intros Hm (Hs & (rest & ->) & Hm0 & Hmax).
  split; [exact Hs|]. split; [exists (rest ++ m); now rewrite app_assoc|].
  split; [exact Hm0|]. intros m' r' E Hm'.
  assert (Ht : m0 ++ rest <> []).
  { intros H. apply app_eq_nil in H as [H _]. now apply mention_nonempty in Hm0. }
  pose proof (@no_straddle _ _ _ _ Ht Hm Hm' E) as Hl.
  destruct (@prefix_of_app _ _ _ _ _ E Hl) as (r'' & E'').
  exact (Hmax _ _ E'' Hm').
Qed.

Lemma no_match_extends prev t m :
  t <> [] -> mention m -> (forall x, ~ mention_here prev t x) ->
  forall x, ~ mention_here prev (t ++ m) x.
Proof.
  intros Ht Hm Hno x (Hs & (r & E) & Hx & Hmax).
  pose proof (@no_straddle _ _ _ _ Ht Hm Hx E) as Hl.
  destruct (@prefix_of_app _ _ _ _ _ E Hl) as (r'' & E'').
  apply (Hno x). split; [exact Hs|]. split; [eauto|]. split; [exact Hx|].
  intros m' rest' E' Hm'. apply (Hmax m' (rest' ++ m)); [|exact Hm'].
  rewrite E'. now rewrite app_assoc.
Qed.

Lemma scanned_app prev t l :
  scanned_mentions prev t l ->
  forall m, mention m ->
            exists l', scanned_mentions prev (t ++ m) (l ++ l').
Proof.
  induction 1 as [prev|prev c s l Hno _ IH|prev m0 rest l Hm0 _ IH];
    intros m Hm.
  - exists (findall_loop true (S (length m)) date_pattern false prev m).
    apply findall_scanned. lia.
  - destruct (IH m Hm) as (l' & Hl'). exists l'.
    simpl app. constructor; [|exact Hl'].
    apply (@no_match_extends prev (c :: s) m); [discriminate | exact Hm | exact Hno].
  - destruct (IH m Hm) as (l' & Hl'). exists l'.
    pose proof (@match_extends _ _ _ _ Hm Hm0) as Hx. rewrite <- app_assoc in *.
    simpl app. now constructor.
Qed.

Lemma list_ascii_of_string_app a b :
  list_ascii_of_string (a ++ b)
  = list_ascii_of_string a ++ list_ascii_of_string b.
Proof. induction a as [|c a IH]; simpl; [reflexivity | now rewrite IH]. Qed.

(** C5: appending a mention to a text keeps every match of the text, in
    order, and so never decreases the number of matches. *)
Theorem scan_count_monotone (t m : string) :
  mention (list_ascii_of_string m) ->
  (exists more, scan (t ++ m) = scan t ++ more)
  /\ length (scan t) <= length (scan (t ++ m)).
Proof.
  intros Hm.
  destruct (@scanned_app _ _ _ (date_matches_scanned (list_ascii_of_string t))
                         _ Hm) as (l' & Hl').
  rewrite <- list_ascii_of_string_app in Hl'.
  pose proof (scanned_unique Hl' (date_matches_scanned _)) as E.
  assert (Es : scan (t ++ m) = scan t ++ map string_of_list_ascii l').
  { unfold scan. rewrite <- E. apply map_app. }
  split; [eauto|]. rewrite Es, length_app. lia.
Qed.

Lemma scan_count_monotone_witness :
  mention (list_ascii_of_string "Feb 7")
  /\ length (scan "Due Jan 5 ") <= length (scan ("Due Jan 5 " ++ "Feb 7")).
Proof.
  assert (H : mention (list_ascii_of_string "Feb 7")).
  { exists (list_ascii_of_string "Feb"), [], (list_ascii_of_string " "),
      (list_ascii_of_string "7"), [].
    split; [reflexivity|]. split.
    { exists "Feb". split; [simpl; tauto | reflexivity]. }
    split; [now left|]. split.
    { split; [discriminate | repeat constructor]. }
    split; [|now left]. left. split; [reflexivity | repeat constructor]. }
  split; [exact H|].
  exact (proj2 (scan_count_monotone "Due Jan 5 " "Feb 7" H)).
Defined.

(** ** The normalizer *)

Lemma parse_raises default_year m :
  names_no_date default_year m -> exists e, parse default_year m = Raised e.
Proof.
  unfold names_no_date, parse.
  destruct (read_mention (list_ascii_of_string m)) as [[[mo d] y]|];
    [|eauto].
  intros ->. eauto.
Qed.

Lemma normalize_skips parser_parse before m after e w :
  parser_parse m = Raised e ->
  normalize parser_parse (before ++ m :: after) w
  = normalize parser_parse (before ++ after) w.
Proof.
  intros H. rewrite !normalize_spec, !parsed_app. simpl. now rewrite H.
Qed.

Lemma february_30 default_year : names_no_date default_year "February 30".
Proof.
  unfold names_no_date.
  replace (read_mention (list_ascii_of_string "February 30"))
    with (Some (2, 30, @None Z))%Z by (vm_compute; reflexivity).
  unfold valid_date, days_in_month. cbn [year month day Z.eqb].
  replace (2 =? 2)%Z with true by reflexivity.
  destruct (is_leap default_year);
    replace (30 <=? 29)%Z with false by reflexivity;
    replace (30 <=? 28)%Z with false by reflexivity;
    apply andb_false_r.
Qed.

(** C2: a mention on which the parser raises, whatever it raises, is
    left out of the result of the normalizer, which returns and prints
    nothing; with the parser of the specification this is so for every
    mention that names no date of its year or that cannot be read, and
    the one mention of "Due February 30" normalizes to the empty
    sequence. *)
Theorem normalize_drops_failures :
  (forall parser_parse before m after e w,
      parser_parse m = Raised e ->
      normalize parser_parse (before ++ m :: after) w
      = (Returned (parsed parser_parse (before ++ after)), w))
  /\ (forall default_year before m after w,
         names_no_date default_year m ->
         normalize (parse default_year) (before ++ m :: after) w
         = normalize (parse default_year) (before ++ after) w)
  /\ (forall default_year w,
         scan "Due February 30" = ["February 30"]
         /\ normalize (parse default_year) (scan "Due February 30") w
            = (Returned [], w)).
Proof.
  split; [|split].
  - intros parser_parse before m after e w H.
    rewrite (@normalize_skips parser_parse before m after e w H).
    apply normalize_spec.
  - intros default_year before m after w H.
    destruct (@parse_raises default_year m H) as (e & He).
    exact (@normalize_skips _ before m after e w He).
  - intros default_year w.
    assert (Hs : scan "Due February 30" = ["February 30"])
      by (vm_compute; reflexivity).
    split; [exact Hs|]. rewrite Hs, normalize_spec.
    destruct (@parse_raises default_year _ (february_30 default_year))
      as (e & He).
    simpl. now rewrite He.
Qed.

Lemma normalize_drops_failures_witness :
  normalize (parse 2026%Z) (["Jan 15"] ++ "Feb 31" :: ["Mar 3"])
            {| stdout := []; files := [] |}
  = (Returned [{| year := 2026%Z; month := 1%Z; day := 15%Z |};
               {| year := 2026%Z; month := 3%Z; day := 3%Z |}],
     {| stdout := []; files := [] |}).
Proof.
  rewrite (proj1 (proj2 normalize_drops_failures) 2026%Z ["Jan 15"] "Feb 31"
             ["Mar 3"] {| stdout := []; files := [] |});
    vm_compute; reflexivity.
Defined.

(** C3: in "Classes begin Jan 15 and the midterm is Mar. 3, 2025." the
    scanner finds "Jan 15" and "Mar. 3, 2025", in that order, and the
    normalizer yields the 15th of January of the default year and the
    3rd of March 2025, in that order. *)
Theorem scenario_two_mentions (current_year : Z) (w : world) :
  (MINYEAR <= current_year <= MAXYEAR)%Z ->
  scan "Classes begin Jan 15 and the midterm is Mar. 3, 2025."
  = ["Jan 15"; "Mar. 3, 2025"]
  /\ normalize (parse current_year)
       (scan "Classes begin Jan 15 and the midterm is Mar. 3, 2025.") w
     = (Returned [{| year := current_year; month := 1%Z; day := 15%Z |};
                  {| year := 2025%Z; month := 3%Z; day := 3%Z |}], w).
Proof.
  intros [Hlo Hhi].
  assert (Hs : scan "Classes begin Jan 15 and the midterm is Mar. 3, 2025."
               = ["Jan 15"; "Mar. 3, 2025"]) by (vm_compute; reflexivity).
  split; [exact Hs|]. rewrite Hs, normalize_spec. unfold parsed.
  cbn [flat_map].
  replace (parse current_year "Mar. 3, 2025")
    with (Returned {| dt_date := {| year := 2025%Z; month := 3%Z; day := 3%Z |};
                      hour := 0%Z; minute := 0%Z; second := 0%Z; microsecond := 0%Z |})
    by (vm_compute; reflexivity).
  unfold parse.
  replace (read_mention (list_ascii_of_string "Jan 15"))
    with (Some (1, 15, @None Z))%Z by (vm_compute; reflexivity).
  unfold valid_date. cbn [year month day].
  apply Z.leb_le in Hlo. apply Z.leb_le in Hhi. rewrite Hlo, Hhi.
  reflexivity.
Qed.

Lemma scenario_two_mentions_witness :
  normalize (parse 2026%Z)
    (scan "Classes begin Jan 15 and the midterm is Mar. 3, 2025.")
    {| stdout := []; files := [] |}
  = (Returned [{| year := 2026%Z; month := 1%Z; day := 15%Z |};
               {| year := 2025%Z; month := 3%Z; day := 3%Z |}],
     {| stdout := []; files := [] |}).
Proof.
  apply (@scenario_two_mentions 2026%Z {| stdout := []; files := [] |}).
  unfold MINYEAR, MAXYEAR. lia.
Defined.

(** C4: the normalizer returns the dates of the mentions that parse, in
    the order of the mentions: never more dates than mentions, and the
    date of an earlier mention before the date of a later one. *)
Theorem normalize_in_order parser_parse (mentions : list string) (w : world) :
  exists ds,
    normalize parser_parse mentions w = (Returned ds, w)
    /\ ds = parsed parser_parse mentions
    /\ length ds <= length mentions
    /\ forall l1 a l2 b l3 da db,
         mentions = l1 ++ a :: l2 ++ b :: l3 ->
         parser_parse a = Returned da -> parser_parse b = Returned db ->
         exists o1 o2 o3, ds = o1 ++ date_of da :: o2 ++ date_of db :: o3.
Proof.
  exists (parsed parser_parse mentions).
  split; [apply normalize_spec|]. split; [reflexivity|].
  split; [apply parsed_length|].
  intros l1 a l2 b l3 da db -> Ha Hb.
  exists (parsed parser_parse l1), (parsed parser_parse l2),
    (parsed parser_parse l3).
  rewrite parsed_app. simpl. rewrite Ha. simpl. rewrite parsed_app. simpl.
  now rewrite Hb.
Qed.

Lemma normalize_in_order_witness :
  exists o1 o2 o3,
    parsed (parse 2026%Z) ["Jan 15"; "Feb 31"; "Mar 3"]
    = o1 ++ {| year := 2026%Z; month := 1%Z; day := 15%Z |}
         :: o2 ++ {| year := 2026%Z; month := 3%Z; day := 3%Z |} :: o3.
Proof.
  destruct (normalize_in_order (parse 2026%Z) ["Jan 15"; "Feb 31"; "Mar 3"]
              {| stdout := []; files := [] |}) as (ds & _ & E & _ & H).
  rewrite <- E.
  apply (H [] "Jan 15" ["Feb 31"] "Mar 3" []
           {| dt_date := {| year := 2026%Z; month := 1%Z; day := 15%Z |};
              hour := 0%Z; minute := 0%Z; second := 0%Z; microsecond := 0%Z |}
           {| dt_date := {| year := 2026%Z; month := 3%Z; day := 3%Z |};
              hour := 0%Z; minute := 0%Z; second := 0%Z; microsecond := 0%Z |});
    vm_compute; reflexivity.
Defined.

(** ** The pipeline *)

Lemma read_pages_quiet ps : forall text w, snd (read_pages ps text w) = w.
Proof.
  induction ps as [|p ps IH]; intros text w; [reflexivity|].
  cbn [read_pages]. unfold bind, lift. destruct (get_text p); [apply IH|].
  reflexivity.
Qed.

Lemma text_source_quiet fitz_open pdf_path w :
  snd (text_source fitz_open pdf_path w) = w.
Proof.
  unfold text_source, bind, lift, ret.
  destruct (fitz_open pdf_path) as [doc|e]; [|reflexivity].
  pose proof (read_pages_quiet (pages doc) "" w) as H.
  destruct (read_pages (pages doc) "" w) as [[text|e] w']; simpl in H; subst;
    [|reflexivity].
  destruct (close doc); reflexivity.
Qed.

Lemma extract_from_source parser_parse fitz_open pdf_path w :
  extract_dates_from_pdf parser_parse fitz_open pdf_path w
  = try_except_Exception
      (text <- text_source fitz_open pdf_path ;;
       parsed_dates <- normalize parser_parse (scan text) ;;
       ret parsed_dates)
      (fun e => print ("Error reading PDF: " ++ message e) ;; ret []) w.
Proof.
  unfold extract_dates_from_pdf, text_source, try_except_Exception,
    try_except, bind, lift, ret.
  destruct (fitz_open pdf_path) as [doc|e]; [|reflexivity].
  destruct (read_pages (pages doc) "" w) as [[text|e] w']; [|reflexivity].
  destruct (close doc); reflexivity.
Qed.

(** C7: when the text source fails with an exception, the pipeline
    returns the empty sequence, raises nothing and prints the reason in
    one line, "Error reading PDF: " and the message of the exception;
    when the text source succeeds, the pipeline prints nothing, also
    when no date is found. *)
Theorem adapter_failure_reported parser_parse fitz_open pdf_path w :
  (forall e w',
      text_source fitz_open pdf_path w = (Raised e, w') ->
      is_Exception e = true ->
      extract_dates_from_pdf parser_parse fitz_open pdf_path w
      = (Returned [],
         {| stdout := ("Error reading PDF: " ++ message e)%string :: stdout w;
            files := files w |}))
  /\ (forall text w',
         text_source fitz_open pdf_path w = (Returned text, w') ->
         extract_dates_from_pdf parser_parse fitz_open pdf_path w
         = (Returned (parsed parser_parse (scan text)), w)).
Proof.
  split.
  - intros e w' H He. pose proof (text_source_quiet fitz_open pdf_path w) as Hq.
    rewrite extract_from_source.
    unfold try_except_Exception, try_except, bind. rewrite H in *.
    simpl in Hq. subst w'. rewrite He. reflexivity.
  - intros text w' H. pose proof (text_source_quiet fitz_open pdf_path w) as Hq.
    rewrite extract_from_source.
    unfold try_except_Exception, try_except, bind. rewrite H in *.
    simpl in Hq. subst w'. rewrite normalize_spec. reflexivity.
Qed.

Lemma adapter_failure_reported_witness :
  extract_dates_from_pdf (parse 2026%Z)
    (fun _ => Raised {| is_Exception := true; message := "no such file" |})
    "syllabus.pdf" {| stdout := []; files := [] |}
  = (Returned [],
     {| stdout := ["Error reading PDF: no such file"]; files := [] |}).
Proof.
  apply (proj1 (adapter_failure_reported (parse 2026%Z)
                  (fun _ => Raised {| is_Exception := true;
                                      message := "no such file" |})
                  "syllabus.pdf" {| stdout := []; files := [] |})
               {| is_Exception := true; message := "no such file" |}
               {| stdout := []; files := [] |});
    reflexivity.
Defined.

(** ** The schedule table *)

Lemma string_app_nil_r (s : string) : (s ++ "")%string = s.
Proof. induction s as [|c s IH]; simpl; [reflexivity | now rewrite IH]. Qed.

Lemma strftime_weekday d : strftime "%A" d = weekday_name d.
Proof. cbn [strftime directive]. apply string_app_nil_r. Qed.

Lemma strftime_description d :
  strftime "%B %d, %Y" d
  = (month_name d ++ " " ++ two_digits (day d) ++ ", " ++ decimal (year d))%string.
Proof.
  cbn [strftime directive]. rewrite string_app_nil_r. reflexivity.
Qed.

Lemma syllabus_df_rows dates :
  dates <> [] ->
  syllabus_df dates
  = Returned {| columns := schedule_columns; rows := map syllabus_row dates |}.
Proof.
  intros Hne. unfold syllabus_df. destruct dates as [|d ds]; [contradiction|].
  set (l := d :: ds). unfold frame_of_columns, syllabus_data.
  cbn [forallb snd fst map]. rewrite !repeat_length, !length_map, !Nat.eqb_refl.
  cbn [andb]. f_equal. unfold schedule_columns. f_equal.
  rewrite <- (map_seq_nth syllabus_row l d). apply map_ext_in.
  intros i Hi. apply in_seq in Hi. unfold syllabus_row.
  rewrite !nth_repeat_lt by lia.
  rewrite (nth_indep (map (strftime "%A") l) ""%string (strftime "%A" d))
    by (rewrite length_map; lia).
  rewrite (nth_indep (map (strftime "%B %d, %Y") l) ""%string
             (strftime "%B %d, %Y" d))
    by (rewrite length_map; lia).
  now rewrite !map_nth.
Qed.

Lemma entry_of_syllabus_row d :
  entry_of_row schedule_columns (syllabus_row d) = lifted d.
Proof.
  unfold entry_of_row, syllabus_row, lifted. cbn [combine schedule_columns].
  unfold cell. cbn [lookup String.eqb Ascii.eqb Bool.eqb].
  now rewrite strftime_weekday, strftime_description.
Qed.

(** C6: the table built from the extracted dates has one row for each
    date, in the order of the dates; the row of a date has the task
    "Syllabus Event", the weekday name of the date as day, "N/A" as
    start time and as end time, and as description the month name, the
    day on two digits, a comma and the year. *)
Theorem syllabus_rows_lifted (dates : list date) :
  exists df,
    syllabus_df dates = Returned df
    /\ entries df = map lifted dates
    /\ length (rows df) = length dates.
Proof.
  destruct dates as [|d ds].
  - exists empty_frame. repeat split.
  - eexists. split; [apply syllabus_df_rows; discriminate|].
    unfold entries. cbn [columns rows]. rewrite map_map, length_map.
    split; [|reflexivity]. apply map_ext. intros x. apply entry_of_syllabus_row.
Qed.

Lemma fold_columns (records : list dict) : forall acc,
  acc = [] \/ acc = schedule_columns ->
  Forall (fun d => keys d = schedule_columns) records ->
  fold_left (fun acc d => add_new acc (keys d)) records acc
  = match records with [] => acc | _ => schedule_columns end.
Proof.
  induction records as [|d records IH]; intros acc Hacc Hk; [reflexivity|].
  inversion Hk as [|? ? Hd Hr]; subst. cbn [fold_left]. rewrite Hd.
  assert (E : add_new acc schedule_columns = schedule_columns)
    by (destruct Hacc as [->| ->]; reflexivity).
  rewrite E, IH by auto. now destruct records.
Qed.

Lemma task_rows (tasks : list (string * string * string * string * string)) :
  map (fun d => map (cell d) schedule_columns)
      (map (fun t => match t with
                     | (task_name, day, start_time, end_time, description) =>
                         task_record task_name day start_time end_time
                                     description
                     end) tasks)
  = map task_row tasks.
Proof. rewrite map_map. apply map_ext. now intros [[[[a b] c] d] e]. Qed.

Lemma user_tasks_frame tasks :
  tasks <> [] ->
  user_tasks tasks
  = {| columns := schedule_columns; rows := map task_row tasks |}.
Proof.
  intros Hne. unfold user_tasks, frame_of_records.
  match goal with
  | |- context [fold_left _ ?r _] => set (recs := r)
  end.
  assert (Hk : Forall (fun d => keys d = schedule_columns) recs).
  { apply Forall_forall. intros d Hd. apply in_map_iff in Hd as (t & <- & _).
    now destruct t as [[[[a b] c] d'] e]. }
  rewrite (@fold_columns recs [] (or_introl eq_refl) Hk).
  replace (match recs with [] => [] | _ :: _ => schedule_columns end)
    with schedule_columns
    by (destruct tasks; [contradiction | reflexivity]).
  subst recs. now rewrite task_rows.
Qed.

Lemma concat_schedule tasks dates :
  concat {| columns := schedule_columns; rows := map task_row tasks |}
         {| columns := schedule_columns; rows := map syllabus_row dates |}
  = {| columns := schedule_columns;
       rows := map task_row tasks ++ map syllabus_row dates |}.
Proof.
  unfold concat. cbn [columns rows].
  replace (add_new schedule_columns schedule_columns) with schedule_columns
    by reflexivity.
  f_equal. rewrite !map_map. f_equal. apply map_ext.
  now intros [[[[a b] c] d] e].
Qed.

Lemma empty_rows (l : list (list string)) :
  empty {| columns := schedule_columns; rows := l |}
  = match l with [] => true | _ => false end.
Proof. now destruct l. Qed.

Lemma full_schedule_frame tasks dates sdf :
  syllabus_df dates = Returned sdf ->
  tasks <> [] \/ dates <> [] ->
  full_schedule (user_tasks tasks) sdf
  = {| columns := schedule_columns;
       rows := map task_row tasks ++ map syllabus_row dates |}.
Proof.
  intros Hs Hne. unfold full_schedule.
  destruct dates as [|d ds]; destruct tasks as [|t ts].
  - destruct Hne as [H|H]; now destruct H.
  - inversion Hs; subst. rewrite user_tasks_frame by discriminate.
    rewrite empty_rows. change (empty empty_frame) with true.
    cbn [map negb andb]. now rewrite app_nil_r.
  - rewrite syllabus_df_rows in Hs by discriminate. inversion Hs; subst.
    rewrite empty_rows. change (empty (user_tasks [])) with true.
    reflexivity.
  - rewrite syllabus_df_rows in Hs by discriminate. inversion Hs; subst.
    rewrite user_tasks_frame by discriminate. rewrite !empty_rows.
    cbn [map negb andb].
    change (task_row t :: map task_row ts) with (map task_row (t :: ts)).
    change (syllabus_row d :: map syllabus_row ds)
      with (map syllabus_row (d :: ds)).
    apply concat_schedule.
Qed.

(** C8 (amended): for every non-empty combined schedule, the exported
    comma-separated table begins with the header line
    Task,Day,Start Time,End Time,Description (the two time columns are
    spelled with a blank), followed by one line for each entry: the
    entered tasks, then the syllabus dates. *)
Theorem export_header_and_rows
        (tasks : list (string * string * string * string * string))
        (dates : list date) (sdf : DataFrame) :
  syllabus_df dates = Returned sdf ->
  empty (full_schedule (user_tasks tasks) sdf) = false ->
  let df := full_schedule (user_tasks tasks) sdf in
  to_csv df
  = ("Task,Day,Start Time,End Time,Description" ++ String newline ""
     ++ String.concat "" (map csv_line (rows df)))%string
  /\ rows df = map task_row tasks ++ map syllabus_row dates.
Proof.
  intros Hs He df. subst df.
  assert (Hne : tasks <> [] \/ dates <> []).
  { destruct tasks as [|t ts]; [|left; discriminate].
    destruct dates as [|d ds]; [|right; discriminate].
    inversion Hs; subst. discriminate He. }
  rewrite (@full_schedule_frame tasks dates sdf Hs Hne). split; reflexivity.
Qed.

Lemma export_header_and_rows_witness :
  rows (full_schedule
          (user_tasks [("Study", "Monday", "09:00", "10:00", "")])
          {| columns := schedule_columns;
             rows := [syllabus_row {| year := 2025%Z; month := 3%Z; day := 3%Z |}] |})
  = [["Study"; "Monday"; "09:00"; "10:00"; ""];
     ["Syllabus Event"; "Monday"; "N/A"; "N/A"; "March 03, 2025"]].
Proof.
  apply (proj2 (@export_header_and_rows
                  [("Study", "Monday", "09:00", "10:00", "")]
                  [{| year := 2025%Z; month := 3%Z; day := 3%Z |}]
                  {| columns := schedule_columns;
                     rows := [syllabus_row
                                {| year := 2025%Z; month := 3%Z; day := 3%Z |}] |}
                  eq_refl eq_refl)).
Defined.

(** C8, as stated, fails: the header of the exported table is not the
    list of the field names Task, Day, StartTime, EndTime, Description
    of the specification. *)
Lemma export_header_differs :
  let df := full_schedule
              (user_tasks [("Study", "Monday", "09:00", "10:00", "")])
              empty_frame in
  empty df = false
  /\ to_csv df
     <> (csv_line ScheduleEntry_fields
         ++ String.concat "" (map csv_line (rows df)))%string.
Proof. split; [reflexivity|]. vm_compute. discriminate. Qed.

(** * Further properties of the program *)

(** ** The scanner *)

Lemma laid_out_skip c s l : laid_out s l -> laid_out (c :: s) l.
Proof.
  intros H. destruct H as [s|gap m s l H]; [constructor|].
  change (c :: gap ++ m ++ s) with ((c :: gap) ++ m ++ s). now constructor.
Qed.

Lemma length_of_string (s : string) :
  length (list_ascii_of_string s) = String.length s.
Proof. induction s as [|c s IH]; simpl; congruence. Qed.

Lemma month_tokens_long :
  forallb (fun name => Nat.leb 3 (String.length name)) month_tokens = true.
Proof. reflexivity. Qed.

Lemma mention_length m : mention m -> 5 <= length m.
Proof.
  intros (tok & dot & ws & d & yr & -> & (name & Hin & Hsame) & _
          & [Hne _] & Hd & _).
  pose proof month_tokens_long as Hl. rewrite forallb_forall in Hl.
  specialize (Hl name Hin). apply Nat.leb_le in Hl.
  apply (f_equal (@length ascii)) in Hsame. rewrite !length_map in Hsame.
  rewrite <- length_of_string in Hl.
  rewrite !length_app.
  assert (1 <= length ws) by (destruct ws; [contradiction | simpl; lia]).
  assert (1 <= length d) by (destruct Hd as [[-> _]|[-> _]]; lia).
  lia.
Qed.

Lemma scanned_laid_out prev s l :
  scanned_mentions prev s l ->
  laid_out s l /\ Forall mention l /\ 5 * length l <= length s.
Proof.
  induction 1 as [prev|prev c s l Hno _ IH|prev m rest l Hm _ IH].
  - repeat split; [constructor | constructor | simpl; lia].
  - destruct IH as (H1 & H2 & H3).
    repeat split; [now apply laid_out_skip | assumption | simpl; lia].
  - destruct IH as (H1 & H2 & H3). destruct Hm as (_ & _ & Hs & _).
    pose proof (mention_length Hs). repeat split.
    + apply (laid_out_cons [] m H1).
    + now constructor.
    + rewrite length_app. simpl. lia.
Qed.

(** The matches reported for a text lie in the text one after the
    other without overlap, each of them is a mention, and there are at
    most a fifth as many as the text has characters. *)
Theorem date_matches_laid_out (t : text) :
  laid_out t (date_matches t)
  /\ Forall mention (date_matches t)
  /\ 5 * length (date_matches t) <= length t.
Proof. exact (scanned_laid_out (date_matches_scanned t)). Qed.

Lemma none_scanned : forall s prev,
  scanned_mentions prev s [] <->
  (forall a m b, s = a ++ m ++ b -> mention m ->
                 word_before (last_char prev a) = true).
Proof.
  induction s as [|c s IH]; intros prev; split.
  - intros _ a m b E Hm. symmetry in E.
    apply app_eq_nil in E as [_ E]. apply app_eq_nil in E as [E _].
    now apply mention_nonempty in Hm.
  - intros _. constructor.
  - intros H a m b E Hm.
    remember (c :: s) as s0 eqn:Es. remember (@nil text) as l eqn:El.
    destruct H as [prev|prev c' s' l Hno H|prev m' rest' l Hm' H];
      try discriminate.
    inversion Es; subst c' s'. subst l.
    destruct a as [|x a].
    + change (last_char prev []) with prev. simpl in E.
      destruct (word_before prev) eqn:Ew; [reflexivity|].
      exfalso.
      destruct (mention_end_complete b Hm) as (rest & Er & _).
      rewrite <- E in Er.
      assert (Eh : here prev (c :: s) = Some rest)
        by (unfold here; now rewrite Ew).
      apply here_match in Eh as (m1 & _ & _ & Hm1). exact (Hno _ Hm1).
    + inversion E; subst x. rewrite last_char_cons.
      apply (proj1 (IH (Some c)) H a m b); auto.
  - intros H. constructor.
    + intros x (Hs & (rest & E) & Hx & _).
      specialize (H [] x rest E Hx). change (last_char prev []) with prev in H.
      congruence.
    + apply IH. intros a m b E Hm.
      rewrite <- (last_char_cons prev). apply (H (c :: a) m b); [|exact Hm].
      simpl. now rewrite E.
Qed.

(** The scanner reports nothing exactly when no mention stands in the
    text at a word boundary, that is when every mention in the text is
    glued to a letter, digit or underscore before it. *)
Theorem date_matches_none (t : text) :
  date_matches t = []
  <-> (forall a m b, t = a ++ m ++ b -> mention m ->
                     word_before (last_char None a) = true).
Proof.
  rewrite <- none_scanned. split.
  - intros E. rewrite <- E. apply date_matches_scanned.
  - intros H. exact (scanned_unique (date_matches_scanned t) H).
Qed.

Lemma mention_alone m : mention m -> date_matches m = [m].
Proof.
  intros Hm.
  assert (H : scanned_mentions None (m ++ []) [m]).
  { constructor; [|constructor].
    split; [reflexivity|]. split; [exists []; reflexivity|].
    split; [exact Hm|]. intros m' rest' E _.
    apply (f_equal (@length ascii)) in E. rewrite !length_app in E.
    simpl in E. lia. }
  rewrite app_nil_r in H.
  exact (scanned_unique (date_matches_scanned m) H).
Qed.

(** Scanning is stable: a match reported for a text, scanned on its own,
    is reported whole and alone. *)
Theorem scan_of_match (t m : string) : In m (scan t) -> scan m = [m].
Proof.
  unfold scan. intros H. apply in_map_iff in H as (m0 & <- & Hin).
  rewrite list_ascii_of_string_of_list_ascii.
  destruct (scanned_laid_out (date_matches_scanned (list_ascii_of_string t)))
    as (_ & Hall & _).
  rewrite Forall_forall in Hall. now rewrite (mention_alone (Hall _ Hin)).
Qed.

Lemma scan_of_match_witness : scan "Feb 14, 2025" = ["Feb 14, 2025"].
Proof.
  apply (@scan_of_match "Quiz on Feb 14, 2025 at noon" "Feb 14, 2025").
  vm_compute. left. reflexivity.
Defined.

(** ** The normalizer and the pipeline *)

(** The normalizer treats each mention on its own: the dates of two
    lists of mentions put end to end are the dates of the first list
    followed by the dates of the second, whatever the parser. *)
Theorem normalize_app parser_parse (a b : list string) (w : world) :
  exists da db,
    normalize parser_parse a w = (Returned da, w)
    /\ normalize parser_parse b w = (Returned db, w)
    /\ normalize parser_parse (a ++ b) w = (Returned (da ++ db), w).
Proof.
  exists (parsed parser_parse a), (parsed parser_parse b).
  rewrite !normalize_spec, parsed_app. repeat split.
Qed.

Lemma string_app_assoc (a b c : string) :
  ((a ++ b) ++ c)%string = (a ++ b ++ c)%string.
Proof. induction a as [|x a IH]; simpl; [reflexivity | now rewrite IH]. Qed.

Lemma read_pages_all ps : forall texts text w,
  map get_text ps = map Returned texts ->
  read_pages ps text w = (Returned (text ++ String.concat "" texts)%string, w).
Proof.
  induction ps as [|p ps IH]; intros [|t texts] text w E; try discriminate.
  - simpl. unfold ret. now rewrite string_app_nil_r.
  - inversion E as [[Ep Eps]]. cbn [read_pages]. unfold bind, lift.
    rewrite Ep, (@IH texts _ _ Eps), string_app_assoc.
    destruct texts as [|t' texts]; [|reflexivity].
    simpl. now rewrite string_app_nil_r.
Qed.

(** When the document opens, every page gives its text and the document
    closes, the pipeline scans the texts of the pages put end to end
    with nothing between them, and returns the dates of the mentions
    found, printing nothing. *)
Theorem extract_reads_all_pages parser_parse fitz_open pdf_path
        (doc : document) (texts : list string) (w : world) :
  fitz_open pdf_path = Returned doc ->
  map get_text (pages doc) = map Returned texts ->
  close doc = Returned tt ->
  extract_dates_from_pdf parser_parse fitz_open pdf_path w
  = (Returned (parsed parser_parse (scan (String.concat "" texts))), w).
Proof.
  intros Ho Hp Hc.
  unfold extract_dates_from_pdf, try_except_Exception, try_except.
  unfold bind at 1, lift at 1. rewrite Ho.
  unfold bind at 1. rewrite (@read_pages_all _ texts "" w Hp).
  unfold bind at 1, lift. rewrite Hc. unfold bind.
  rewrite normalize_spec. reflexivity.
Qed.

(** A mention cut by a page break, "Jan" ending one page and " 15"
    starting the next, is read as one date. *)
Lemma extract_reads_all_pages_witness :
  extract_dates_from_pdf (parse 2026%Z)
    (fun _ => Returned
                {| pages := [ {| get_text := Returned "Exam on Jan" |};
                              {| get_text := Returned " 15 at noon" |} ];
                   close := Returned tt |})
    "syllabus.pdf" {| stdout := []; files := [] |}
  = (Returned [{| year := 2026%Z; month := 1%Z; day := 15%Z |}],
     {| stdout := []; files := [] |}).
Proof.
  rewrite (@extract_reads_all_pages (parse 2026%Z) _ "syllabus.pdf"
             {| pages := [ {| get_text := Returned "Exam on Jan" |};
                           {| get_text := Returned " 15 at noon" |} ];
                close := Returned tt |}
             ["Exam on Jan"; " 15 at noon"] {| stdout := []; files := [] |}
             eq_refl eq_refl eq_refl).
  vm_compute. reflexivity.
Defined.

Lemma extract_cases parser_parse fitz_open pdf_path (w : world) :
  extract_dates_from_pdf parser_parse fitz_open pdf_path w
  = match fst (text_source fitz_open pdf_path w) with
    | Returned text => (Returned (parsed parser_parse (scan text)), w)
    | Raised e =>
        if is_Exception e
        then (Returned [],
              {| stdout := ("Error reading PDF: " ++ message e)%string :: stdout w;
                 files := files w |})
        else (Raised e, w)
    end.
Proof.
  rewrite extract_from_source.
  pose proof (text_source_quiet fitz_open pdf_path w) as Hq.
  unfold try_except_Exception, try_except, bind at 1.
  destruct (text_source fitz_open pdf_path w) as [[text|e] w']; simpl in Hq;
    subst w'; cbn [fst].
  - unfold bind. now rewrite normalize_spec.
  - now destruct (is_Exception e).
Qed.

(** The pipeline keeps its failures to itself: it never writes a file,
    an exception leaves it only when it is not an [Exception] (and then
    nothing has been printed), and when it returns it has either printed
    nothing or returned no date and printed one line that starts with
    "Error reading PDF: ". *)
Theorem extract_contained parser_parse fitz_open pdf_path (w : world) :
  let r := extract_dates_from_pdf parser_parse fitz_open pdf_path w in
  files (snd r) = files w
  /\ (forall e, fst r = Raised e -> is_Exception e = false /\ snd r = w)
  /\ (forall ds, fst r = Returned ds ->
        snd r = w
        \/ (ds = []
            /\ exists msg,
                stdout (snd r) = ("Error reading PDF: " ++ msg)%string :: stdout w)).
Proof.
  cbv zeta. rewrite extract_cases.
  destruct (fst (text_source fitz_open pdf_path w)) as [text|e].
  - cbn [fst snd]. repeat split; try discriminate. intros ds _. now left.
  - destruct (is_Exception e) eqn:He; cbn [fst snd files stdout].
    + repeat split; try discriminate.
      intros ds E. right. inversion E. split; [reflexivity|].
      now exists (message e).
    + split; [reflexivity|]. split; [|discriminate].
      intros e' E. inversion E; subst. now split.
Qed.

(** ** The combined table *)

Lemma add_new_prefix ks : forall seen, exists l, add_new seen ks = seen ++ l.
Proof.
  unfold add_new. induction ks as [|k ks IH]; intros seen; simpl.
  - exists []. now rewrite app_nil_r.
  - destruct (existsb (String.eqb k) seen); [apply IH|].
    destruct (IH (seen ++ [k])) as [l E]. exists (k :: l).
    now rewrite E, <- app_assoc.
Qed.

(** The combined table is empty exactly when the table of the tasks and
    the table of the syllabus both are. *)
Theorem full_schedule_empty (task_df syllabus_df : DataFrame) :
  empty (full_schedule task_df syllabus_df)
  = (empty task_df && empty syllabus_df)%bool.
Proof.
  unfold full_schedule.
  destruct (empty task_df) eqn:Ea; destruct (empty syllabus_df) eqn:Eb;
    cbn [negb andb]; try reflexivity; try assumption.
  unfold empty in *. apply orb_false_iff in Ea as [Ea1 Ea2].
  apply orb_false_iff in Eb as [Eb1 Eb2]. apply orb_false_iff.
  unfold concat. cbn [columns rows].
  destruct (add_new_prefix (columns syllabus_df) (columns task_df)) as [l ->].
  rewrite !length_app, !length_map.
  apply Nat.eqb_neq in Ea1, Ea2. split; apply Nat.eqb_neq; lia.
Qed.

(** ** The name of the file to save to *)

Lemma lstrip_app_last x c :
  is_space c = false -> lstrip (x ++ [c]) = lstrip x ++ [c].
Proof.
  intros Hc. induction x as [|d x IH]; simpl; [now rewrite Hc|].
  now destruct (is_space d).
Qed.

Lemma rstrip_cons c r : is_space c = false -> rstrip (c :: r) = c :: rstrip r.
Proof.
  intros Hc. unfold rstrip. simpl rev.
  now rewrite lstrip_app_last, rev_app_distr.
Qed.

Lemma rstrip_app_last x c : is_space c = false -> rstrip (x ++ [c]) = x ++ [c].
Proof.
  intros Hc. unfold rstrip. rewrite rev_app_distr. simpl. rewrite Hc.
  change (c :: rev x) with ([c] ++ rev x).
  now rewrite rev_app_distr, rev_involutive.
Qed.

Lemma lstrip_head s c r : lstrip s = c :: r -> is_space c = false.
Proof.
  induction s as [|d s IH]; simpl; [discriminate|].
  destruct (is_space d) eqn:Hd; [exact IH|]. intros E. now inversion E; subst.
Qed.

Lemma rstrip_last s x c : rstrip s = x ++ [c] -> is_space c = false.
Proof.
  unfold rstrip. intros E. apply (f_equal (@rev ascii)) in E.
  rewrite rev_involutive, rev_app_distr in E. simpl in E.
  exact (@lstrip_head _ _ _ E).
Qed.

Lemma lstrip_cons c r : is_space c = false -> lstrip (c :: r) = c :: r.
Proof. intros Hc. simpl. now rewrite Hc. Qed.

Lemma strip_text_fixed l :
  lstrip (rstrip (lstrip l)) = rstrip (lstrip l)
  /\ rstrip (rstrip (lstrip l)) = rstrip (lstrip l).
Proof.
  destruct (lstrip l) as [|c r] eqn:E; [now split|].
  pose proof (@lstrip_head _ _ _ E) as Hc.
  destruct (@exists_last _ (rstrip (c :: r))) as (y & d & Ey).
  { rewrite (@rstrip_cons c r Hc). discriminate. }
  pose proof (@rstrip_last _ _ _ Ey) as Hd. split.
  - rewrite (@rstrip_cons c r Hc). now apply lstrip_cons.
  - rewrite Ey. now apply rstrip_app_last.
Qed.

Lemma strip_text_app l x d :
  rstrip (lstrip l) <> [] -> is_space d = false ->
  rstrip (lstrip (rstrip (lstrip l) ++ x ++ [d])) = rstrip (lstrip l) ++ x ++ [d].
Proof.
  intros Hne Hd. destruct (lstrip l) as [|c r] eqn:E; [now destruct Hne|].
  pose proof (@lstrip_head _ _ _ E) as Hc. rewrite (@rstrip_cons c r Hc).
  cbn [app]. rewrite (@lstrip_cons c _ Hc).
  change (c :: rstrip r ++ x ++ [d]) with ((c :: rstrip r) ++ x ++ [d]).
  rewrite app_assoc. now apply rstrip_app_last.
Qed.

Lemma strip_strip s : strip (strip s) = strip s.
Proof.
  unfold strip. rewrite list_ascii_of_string_of_list_ascii.
  destruct (strip_text_fixed (list_ascii_of_string s)) as [H1 H2].
  now rewrite H1, H2.
Qed.

Lemma endswith_app (a b : string) : endswith (a ++ b) b = true.
Proof.
  unfold endswith. rewrite list_ascii_of_string_app, length_app.
  apply andb_true_iff. split; [apply Nat.leb_le; lia|].
  apply text_eqb_eq. rewrite Nat.add_sub, skipn_app, Nat.sub_diag.
  now rewrite skipn_all.
Qed.

Lemma export_filename_fixed (f : string) :
  strip f = f -> f <> ""%string -> endswith f ".csv" = true ->
  export_filename f = f.
Proof.
  intros Hs Hne He. unfold export_filename. rewrite Hs.
  destruct (String.eqb f "") eqn:E; [now apply String.eqb_eq in E|].
  now rewrite He.
Qed.

Lemma string_of_list_ascii_app (a b : text) :
  string_of_list_ascii (a ++ b)
  = (string_of_list_ascii a ++ string_of_list_ascii b)%string.
Proof. induction a as [|c a IH]; simpl; [reflexivity | now rewrite IH]. Qed.

Lemma export_filename_cases (typed : string) :
  export_filename typed
  = if String.eqb (strip typed) "" then "my_schedule.csv"%string
    else if endswith (strip typed) ".csv" then strip typed
         else (strip typed ++ ".csv")%string.
Proof. unfold export_filename. now destruct (String.eqb (strip typed) ""). Qed.

Lemma export_filename_ends (typed : string) :
  endswith (export_filename typed) ".csv" = true.
Proof.
  rewrite export_filename_cases.
  destruct (String.eqb (strip typed) ""); [reflexivity|].
  destruct (endswith (strip typed) ".csv") eqn:He; [exact He|].
  apply endswith_app.
Qed.

(** Whatever is typed as the name of the file, the name used ends with
    ".csv"; a blank answer gives "my_schedule.csv", any other answer is
    used without the blanks around it, with ".csv" added unless it ends
    so already; and a name that came out of this is used as it is. *)
Theorem export_filename_csv (typed : string) :
  endswith (export_filename typed) ".csv" = true
  /\ (strip typed = ""%string -> export_filename typed = "my_schedule.csv"%string)
  /\ (strip typed <> ""%string ->
      export_filename typed
      = if endswith (strip typed) ".csv" then strip typed
        else (strip typed ++ ".csv")%string)
  /\ export_filename (export_filename typed) = export_filename typed.
Proof.
  rewrite (export_filename_cases typed).
  destruct (String.eqb (strip typed) "") eqn:E.
  - apply String.eqb_eq in E. repeat split; try reflexivity.
    intros H. now destruct H.
  - apply String.eqb_neq in E.
    destruct (endswith (strip typed) ".csv") eqn:He.
    + repeat split; try assumption; try reflexivity; [now intros H|].
      apply export_filename_fixed; [apply strip_strip | assumption | assumption].
    + split; [apply endswith_app|]. split; [now intros H|].
      split; [reflexivity|].
      apply export_filename_fixed; [| |apply endswith_app].
      * unfold strip at 1. rewrite list_ascii_of_string_app.
        unfold strip. rewrite list_ascii_of_string_of_list_ascii.
        change (list_ascii_of_string ".csv")
          with (["."; "c"; "s"]%char ++ ["v"%char]).
        rewrite strip_text_app.
        -- now rewrite string_of_list_ascii_app.
        -- intros H. apply E. unfold strip. now rewrite H.
        -- reflexivity.
      * intros H. apply E. now destruct (strip typed).
Qed.

(** ** Saving *)

(** Saving under the name made from the typed answer never raises an
    [Exception] and never fails in silence: when it returns it has either
    written the table, as comma-separated text, to one file whose name
    ends with ".csv", and printed that the schedule was saved to it, or
    it has left the files alone and printed one line with the reason. *)
Theorem save_reports open_for_writing check_mark cross_mark
        (df : DataFrame) (typed : string) (w : world) :
  let name := export_filename typed in
  let r := save_schedule_to_csv open_for_writing check_mark cross_mark df name w in
  endswith name ".csv" = true
  /\ (forall e, fst r = Raised e -> is_Exception e = false /\ snd r = w)
  /\ (fst r = Returned tt ->
      (files (snd r) = (name, to_csv df) :: files w
       /\ stdout (snd r)
          = String newline (check_mark ++ " Schedule saved to " ++ name)
              :: stdout w)
      \/ (files (snd r) = files w
          /\ exists msg,
              stdout (snd r)
              = (cross_mark ++ " Error saving schedule: " ++ msg)%string
                  :: stdout w)).
Proof.
  cbv zeta. split; [apply export_filename_ends|].
  unfold save_schedule_to_csv, try_except_Exception, try_except, write_file,
    bind, lift, print.
  destruct (open_for_writing (export_filename typed)) as [[]|e]; cbn [fst snd].
  - split; [discriminate|]. intros _. left. now split.
  - destruct (is_Exception e) eqn:He; cbn [fst snd files stdout].
    + split; [discriminate|]. intros _. right. split; [reflexivity|].
      now exists (message e).
    + split; [|discriminate]. intros e' E. inversion E; subst. now split.
Qed.

Lemma save_reports_witness :
  files (snd (save_schedule_to_csv (fun _ => Returned tt) "+" "-"
                {| columns := schedule_columns;
                   rows := [["Lab"; "Monday"; "09:00"; "10:00"; ""]] |}
                (export_filename " week1 ")
                {| stdout := []; files := [] |}))
  = [("week1.csv",
      to_csv {| columns := schedule_columns;
                rows := [["Lab"; "Monday"; "09:00"; "10:00"; ""]] |})].
Proof.
  destruct (save_reports (fun _ => Returned tt) "+" "-"
              {| columns := schedule_columns;
                 rows := [["Lab"; "Monday"; "09:00"; "10:00"; ""]] |}
              " week1 " {| stdout := []; files := [] |}) as (_ & _ & H).
  destruct (H eq_refl) as [[Hf _]|[Hf _]]; [exact Hf | discriminate Hf].
Defined.

(** ** The tasks typed at the terminal *)

Lemma concat_repeat_comm A (b : list A) n :
  List.concat (repeat b n) ++ b = b ++ List.concat (repeat b n).
Proof.
  induction n as [|n IH]; simpl; [now rewrite app_nil_r|].
  now rewrite <- app_assoc, IH.
Qed.

Lemma task_loop_reads capitalize (done : string) (rest : list string) :
  is_done done = true ->
  forall (tasks : list typed_task) acc turns s0,
    length tasks < turns ->
    Forall (fun t => is_done (task_name_of t) = false) tasks ->
    task_loop capitalize turns acc
      {| stdin := flat_map typed_lines tasks ++ done :: rest; screen := s0 |}
    = (Returned
         (acc ++ map (fun t => match t with
                               | (task_name, day, start_time, end_time,
                                  description) =>
                                   task_record task_name day start_time
                                               end_time description
                               end) (map (recorded capitalize) tasks)),
       {| stdin := rest;
          screen := Prompted "Task name (or 'done'): "
                      :: List.concat (repeat task_prompts (length tasks))
                      ++ s0 |}).
Proof.
  intros Hd. induction tasks as [|[[[[n d] s] e] x] tasks IH];
    intros acc [|turns] s0 Hlt Hall; try (simpl in Hlt; lia).
  - cbn [flat_map app task_loop]. unfold then_, input. cbn [stdin screen tl].
    unfold is_done in Hd. rewrite Hd. unfold answer. cbn [map].
    now rewrite app_nil_r.
  - inversion Hall as [|? ? Hn Hts]; subst. cbn [task_name_of] in Hn.
    cbn [flat_map typed_lines app task_loop].
    unfold then_ at 1, input at 1. cbn [stdin screen tl].
    unfold is_done in Hn. rewrite Hn.
    unfold then_ at 1, input at 1. cbn [stdin screen tl].
    unfold then_ at 1, input at 1. cbn [stdin screen tl].
    unfold then_ at 1, input at 1. cbn [stdin screen tl].
    unfold then_ at 1, input at 1. cbn [stdin screen tl].
    rewrite IH by (simpl in Hlt; try lia; assumption).
    cbn [map length repeat List.concat recorded]. rewrite <- !app_assoc.
    f_equal. f_equal. f_equal.
    rewrite app_assoc, <- (concat_repeat_comm task_prompts (length tasks)).
    now rewrite <- app_assoc.
Qed.

Lemma typed_lines_length (tasks : list typed_task) :
  length (flat_map typed_lines tasks) = 5 * length tasks.
Proof.
  induction tasks as [|[[[[n d] s] e] x] ts IH]; [reflexivity|].
  cbn [flat_map typed_lines app length]. rewrite IH. lia.
Qed.

Lemma user_tasks_empty (tasks : list typed_task) :
  empty (user_tasks tasks) = match tasks with [] => true | _ => false end.
Proof.
  destruct tasks as [|t ts]; [reflexivity|].
  now rewrite user_tasks_frame by discriminate.
Qed.

Lemma get_user_tasks_at capitalize (tasks : list typed_task)
      (done : string) (rest : list string) (s0 : list written) :
  Forall (fun t => is_done (task_name_of t) = false) tasks ->
  is_done done = true ->
  get_user_tasks capitalize
    {| stdin := flat_map typed_lines tasks ++ done :: rest; screen := s0 |}
  = (Returned (user_tasks (map (recorded capitalize) tasks)),
     {| stdin := rest;
        screen :=
          Prompted "Task name (or 'done'): "
            :: List.concat (repeat task_prompts (length tasks))
            ++ Printed (String newline
                 "Enter your tasks one by one. Type 'done' when finished.")
            :: s0 |}).
Proof.
  intros Hall Hd.
  unfold get_user_tasks, then_ at 1, say. cbn [stdin screen].
  unfold then_ at 1.
  rewrite (@task_loop_reads capitalize done rest Hd tasks [] _ _); try assumption.
  - reflexivity.
  - rewrite length_app, typed_lines_length. simpl. lia.
Qed.

Lemma tasks_read_upto capitalize (tasks : list typed_task)
      (done : string) (rest : list string) (s0 : list written) :
  Forall (fun t => is_done (task_name_of t) = false) tasks ->
  is_done done = true ->
  exists shown,
    get_user_tasks capitalize
      {| stdin := flat_map typed_lines tasks ++ done :: rest; screen := s0 |}
    = (Returned (user_tasks (map (recorded capitalize) tasks)),
       {| stdin := rest; screen := shown ++ s0 |}).
Proof.
  intros Hall Hd. rewrite (@get_user_tasks_at capitalize tasks done rest s0 Hall Hd).
  exists (Prompted "Task name (or 'done'): "
            :: List.concat (repeat task_prompts (length tasks))
            ++ [Printed (String newline
                  "Enter your tasks one by one. Type 'done' when finished.")]).
  cbn [app]. now rewrite <- app_assoc.
Qed.

(** The tasks are read five lines at a time, up to the first line in the
    place of a task name that reads "done" once stripped, in any case:
    the table has one row for each task typed before it, in order, with
    every answer stripped and the day capitalized; the lines after the
    closing line are left unread; a "done" typed as a day, a time or a
    description closes nothing; and the table is empty exactly when no
    task was typed. *)
Theorem get_user_tasks_reads capitalize (tasks : list typed_task)
        (done : string) (rest : list string) (s0 : list written) :
  Forall (fun t => is_done (task_name_of t) = false) tasks ->
  is_done done = true ->
  get_user_tasks capitalize
    {| stdin := flat_map typed_lines tasks ++ done :: rest; screen := s0 |}
  = (Returned (user_tasks (map (recorded capitalize) tasks)),
     {| stdin := rest;
        screen :=
          Prompted "Task name (or 'done'): "
            :: List.concat (repeat task_prompts (length tasks))
            ++ Printed (String newline
                 "Enter your tasks one by one. Type 'done' when finished.")
            :: s0 |})
  /\ rows (user_tasks (map (recorded capitalize) tasks))
     = map task_row (map (recorded capitalize) tasks)
  /\ empty (user_tasks (map (recorded capitalize) tasks))
     = match tasks with [] => true | _ => false end.
Proof.
  intros Hall Hd. split; [|split].
  - now apply get_user_tasks_at.
  - destruct tasks as [|t ts]; [reflexivity|].
    now rewrite user_tasks_frame by discriminate.
  - rewrite user_tasks_empty. now destruct tasks.
Qed.

Lemma get_user_tasks_reads_witness :
  fst (get_user_tasks (fun s => s)
         {| stdin := [" Essay "; "Friday"; "done"; " 17:00"; "";
                      "  DONE "; "y"];
            screen := [] |})
  = Returned {| columns := schedule_columns;
                rows := [["Essay"; "Friday"; "done"; "17:00"; ""]] |}
  /\ stdin (snd (get_user_tasks (fun s => s)
                   {| stdin := [" Essay "; "Friday"; "done"; " 17:00"; "";
                                "  DONE "; "y"];
                      screen := [] |}))
     = ["y"].
Proof.
  destruct (@get_user_tasks_reads (fun s => s)
              [(" Essay ", "Friday", "done", " 17:00", "")]%string
              "  DONE " ["y"] []) as (E & _ & _).
  - repeat constructor.
  - reflexivity.
  - cbn [flat_map typed_lines app] in E. rewrite E. split; reflexivity.
Defined.

Lemma task_loop_eof capitalize (partial : list string) :
  length partial < 5 ->
  match partial with line :: _ => is_done line = false | [] => True end ->
  forall (tasks : list typed_task) acc turns s0,
    length tasks < turns ->
    Forall (fun t => is_done (task_name_of t) = false) tasks ->
    exists shown,
      task_loop capitalize turns acc
        {| stdin := flat_map typed_lines tasks ++ partial; screen := s0 |}
      = (Raised EOFError, {| stdin := []; screen := shown ++ s0 |}).
Proof.
  intros Hp Hh. induction tasks as [|[[[[n d] s] e] x] tasks IH];
    intros acc [|turns] s0 Hlt Hall; try (simpl in Hlt; lia).
  - cbn [flat_map app task_loop]. unfold is_done in Hh.
    destruct partial as [|a [|b [|c [|d [|e p]]]]]; try (simpl in Hp; lia);
      unfold then_, input; cbn [stdin screen tl]; try rewrite Hh;
      cbn [stdin screen tl].
    + now exists [Prompted "Task name (or 'done'): "].
    + now exists [Prompted "Day of the week (e.g., Monday): ";
                  Prompted "Task name (or 'done'): "].
    + now exists [Prompted "Start time (HH:MM, 24hr format): ";
                  Prompted "Day of the week (e.g., Monday): ";
                  Prompted "Task name (or 'done'): "].
    + now exists [Prompted "End time (HH:MM, 24hr format): ";
                  Prompted "Start time (HH:MM, 24hr format): ";
                  Prompted "Day of the week (e.g., Monday): ";
                  Prompted "Task name (or 'done'): "].
    + now exists task_prompts.
  - inversion Hall as [|? ? Hn Hts]; subst. cbn [task_name_of] in Hn.
    cbn [flat_map typed_lines app task_loop].
    unfold then_ at 1, input at 1. cbn [stdin screen tl].
    unfold is_done in Hn. rewrite Hn.
    unfold then_ at 1, input at 1. cbn [stdin screen tl].
    unfold then_ at 1, input at 1. cbn [stdin screen tl].
    unfold then_ at 1, input at 1. cbn [stdin screen tl].
    unfold then_ at 1, input at 1. cbn [stdin screen tl].
    destruct (IH (acc ++ [task_record (strip n) (capitalize (strip d))
                            (strip s) (strip e) (strip x)])
                 turns (task_prompts ++ s0)) as [shown E];
      [simpl in Hlt; lia | assumption |].
    exists (shown ++ task_prompts). now rewrite <- app_assoc.
Qed.

Lemma typed_lines_split : forall n (lines : list string),
  length lines <= n ->
  exists (tasks : list typed_task) (tail : list string),
    lines = flat_map typed_lines tasks ++ tail
    /\ Forall (fun t => is_done (task_name_of t) = false) tasks
    /\ ((exists done rest, tail = done :: rest /\ is_done done = true)
        \/ (length tail < 5
            /\ match tail with
               | line :: _ => is_done line = false
               | [] => True
               end)).
Proof.
  induction n as [|n IH]; intros lines Hn.
  - destruct lines; [|simpl in Hn; lia].
    exists [], []. repeat split; [constructor|]. right. simpl. split; [lia|exact I].
  - destruct lines as [|a lines].
    { exists [], []. repeat split; [constructor|]. right. simpl.
      split; [lia|exact I]. }
    destruct (is_done a) eqn:Ha.
    { exists [], (a :: lines). repeat split; [constructor|]. left.
      now exists a, lines. }
    destruct lines as [|b [|c [|d [|e lines]]]];
      try (eexists [], _; split; [reflexivity|]; split; [constructor|];
           right; simpl; split; [lia|exact Ha]).
    destruct (IH lines) as (tasks & tail & -> & Hall & H);
      [simpl in Hn; lia|].
    exists ((a, b, c, d, e) :: tasks), tail. split; [reflexivity|].
    split; [|exact H]. constructor; [exact Ha | exact Hall].
Qed.

(** Reading the tasks ends in one of two ways, whatever is typed: at the
    first closing line in the place of a task name, with the table of
    the tasks typed before it and the later lines unread, or, when the
    input ends before such a line, with [EOFError] and no table, all the
    input read. *)
Theorem get_user_tasks_ends capitalize (t : terminal) :
  exists tasks tail shown,
    stdin t = flat_map typed_lines tasks ++ tail
    /\ Forall (fun t => is_done (task_name_of t) = false) tasks
    /\ ((exists done rest,
           tail = done :: rest /\ is_done done = true
           /\ get_user_tasks capitalize t
              = (Returned (user_tasks (map (recorded capitalize) tasks)),
                 {| stdin := rest; screen := shown ++ screen t |}))
        \/ (length tail < 5
            /\ match tail with
               | line :: _ => is_done line = false
               | [] => True
               end
            /\ get_user_tasks capitalize t
               = (Raised EOFError,
                  {| stdin := []; screen := shown ++ screen t |}))).
Proof.
  destruct t as [lines s0]. cbn [stdin screen].
  destruct (@typed_lines_split (length lines) lines (le_n _))
    as (tasks & tail & -> & Hall & [(done & rest & -> & Hd)|[Hlen Hh]]).
  - destruct (@tasks_read_upto capitalize tasks done rest s0 Hall Hd)
      as [shown E].
    exists tasks, (done :: rest), shown. repeat split; try assumption.
    left. now exists done, rest.
  - assert (Hturns : length tasks
                     < S (length (flat_map typed_lines tasks ++ tail)))
      by (rewrite length_app, typed_lines_length; lia).
    destruct (@task_loop_eof capitalize tail Hlen Hh tasks []
                (S (length (flat_map typed_lines tasks ++ tail)))
                (Printed (String newline
                   "Enter your tasks one by one. Type 'done' when finished.")
                 :: s0) Hturns Hall) as [shown E].
    exists tasks, tail,
      (shown ++ [Printed (String newline
                   "Enter your tasks one by one. Type 'done' when finished.")]).
    repeat split; try assumption. right. repeat split; try assumption.
    unfold get_user_tasks, then_ at 1, say. cbn [stdin screen].
    unfold then_ at 1. rewrite E. now rewrite <- app_assoc.
Qed.

(** ** The display *)

Lemma for_each_ext A (l : list A) (f g : A -> M unit) :
  (forall x w, In x l -> f x w = g x w) ->
  forall w, for_each l f w = for_each l g w.
Proof.
  induction l as [|x l IH]; intros H w; [reflexivity|].
  cbn [for_each]. unfold bind. rewrite (H x w (or_introl eq_refl)).
  destruct (g x w) as [[[]|e] w']; [|reflexivity].
  apply IH. intros y w0 Hy. apply H. now right.
Qed.

(** A row whose day is none of the seven names in [days_order] is not
    shown: as long as other rows remain, the display is the same with
    the row as without it. *)
Theorem display_hides_unknown_day calendar_mark (cols : list string)
        (l1 l2 : list (list string)) (r : list string) (w : world) :
  ~ In (cell (combine cols r) "Day") days_order ->
  l1 ++ l2 <> [] ->
  display_schedule calendar_mark {| columns := cols; rows := l1 ++ r :: l2 |} w
  = display_schedule calendar_mark {| columns := cols; rows := l1 ++ l2 |} w.
Proof.
  intros Hday Hne. unfold display_schedule.
  assert (He : empty {| columns := cols; rows := l1 ++ r :: l2 |}
               = empty {| columns := cols; rows := l1 ++ l2 |}).
  { unfold empty. cbn [columns rows]. f_equal.
    destruct l1; [destruct l2; [now destruct Hne|]|]; reflexivity. }
  rewrite He. destruct (empty {| columns := cols; rows := l1 ++ l2 |});
    [reflexivity|].
  unfold bind at 1 5. unfold print at 1 4. cbn iota.
  unfold bind at 1 4. unfold print at 1 3. cbn iota.
  unfold bind at 1 3. unfold print at 1 2. cbn iota.
  apply for_each_ext. intros day w0 Hin.
  assert (Hw : where_equal {| columns := cols; rows := l1 ++ r :: l2 |} "Day" day
               = where_equal {| columns := cols; rows := l1 ++ l2 |} "Day" day).
  { unfold where_equal. cbn [columns rows].
    rewrite !filter_app. cbn [filter].
    destruct (String.eqb (cell (combine cols r) "Day") day) eqn:E;
      [|reflexivity].
    apply String.eqb_eq in E. subst day. contradiction. }
  unfold bind at 1 5. now rewrite Hw.
Qed.

Lemma display_hides_unknown_day_witness :
  display_schedule "#"
    {| columns := schedule_columns;
       rows := [["Lab"; "Monday"; "09:00"; "10:00"; ""];
                ["Gym"; "Mon"; "18:00"; "19:00"; ""]] |}
    {| stdout := []; files := [] |}
  = display_schedule "#"
      {| columns := schedule_columns;
         rows := [["Lab"; "Monday"; "09:00"; "10:00"; ""]] |}
      {| stdout := []; files := [] |}.
Proof.
  apply (@display_hides_unknown_day "#" schedule_columns
           [["Lab"; "Monday"; "09:00"; "10:00"; ""]] []
           ["Gym"; "Mon"; "18:00"; "19:00"; ""]
           {| stdout := []; files := [] |}).
  - vm_compute. intuition discriminate.
  - discriminate.
Defined.

Lemma printed_app l1 l2 w : printed l2 (printed l1 w) = printed (l1 ++ l2) w.
Proof.
  unfold printed. cbn [stdout files]. now rewrite rev_app_distr, app_assoc.
Qed.

Lemma print_printed line w : print line w = (Returned tt, printed [line] w).
Proof. reflexivity. Qed.

Lemma for_each_printed A (lines : A -> list string) (body : A -> M unit) :
  forall (l : list A),
    (forall x w, In x l -> body x w = (Returned tt, printed (lines x) w)) ->
    forall w, for_each l body w = (Returned tt, printed (flat_map lines l) w).
Proof.
  induction l as [|x l IH]; intros H w.
  - unfold printed. now destruct w.
  - cbn [for_each flat_map]. unfold bind.
    rewrite (H x w (or_introl eq_refl)), IH, printed_app; [reflexivity|].
    intros y w0 Hy. apply H. now right.
Qed.

Lemma show_task_lines (r : list string) (w : world) :
  length r = 5 ->
  show_task schedule_columns r w = (Returned tt, printed (task_lines r) w).
Proof.
  intros Hr.
  destruct r as [|a [|b [|c [|d [|e [|x r]]]]]]; try discriminate Hr.
  unfold show_task, task_lines, entry_of_row, getitem, cell.
  cbn [combine schedule_columns lookup String.eqb Ascii.eqb Bool.eqb
       StartTime EndTime Task Description].
  unfold bind, ret, print.
  destruct (String.eqb c "N/A"); cbn [negb];
    destruct (String.eqb e ""); cbn [negb]; reflexivity.
Qed.

Lemma day_loop_printed calendar_mark (rs : list (list string)) (day : string)
      (w : world) :
  Forall (fun r => length r = 5) rs ->
  (day_tasks <- where_equal {| columns := schedule_columns; rows := rs |}
                            "Day" day ;;
   if negb (empty day_tasks)
   then
     print (String newline (calendar_mark ++ " " ++ str_upper day)) ;;
     print (times "-" 40) ;;
     for_each (rows day_tasks) (show_task (columns day_tasks)) ;;
     print ""
   else ret tt)%monad w
  = (Returned tt, printed (day_block calendar_mark rs day) w).
Proof.
  intros Hall. unfold where_equal. cbn [columns rows].
  change (existsb (String.eqb "Day") schedule_columns) with true. cbn iota.
  unfold bind at 1, ret at 1. rewrite empty_rows. cbn [columns rows].
  unfold day_block.
  change (fun r : list string =>
            String.eqb (Day (entry_of_row schedule_columns r)) day)
    with (fun r : list string =>
            String.eqb (cell (combine schedule_columns r) "Day") day).
  assert (Hsub : Forall (fun r => length r = 5)
                   (filter (fun r : list string =>
                      String.eqb (cell (combine schedule_columns r) "Day") day)
                      rs)).
  { apply Forall_forall. intros r Hr. apply filter_In in Hr as [Hr _].
    rewrite Forall_forall in Hall. now apply Hall. }
  destruct (filter (fun r : list string =>
              String.eqb (cell (combine schedule_columns r) "Day") day) rs)
    as [|r0 l] eqn:Ef.
  - cbn [negb]. unfold ret, printed. now destruct w.
  - cbn [negb]. unfold bind at 1. rewrite print_printed.
    unfold bind at 1. rewrite print_printed.
    unfold bind at 1.
    rewrite (@for_each_printed _ task_lines (show_task schedule_columns)
               (r0 :: l)).
    + rewrite print_printed, !printed_app. reflexivity.
    + intros x w0 Hx. apply show_task_lines.
      rewrite Forall_forall in Hsub. now apply Hsub.
Qed.

Lemma display_lines calendar_mark (rs : list (list string)) (w : world) :
  rs <> [] ->
  Forall (fun r => length r = 5) rs ->
  display_schedule calendar_mark {| columns := schedule_columns; rows := rs |} w
  = (Returned tt,
     printed (banner ++ flat_map (day_block calendar_mark rs) days_order) w).
Proof.
  intros Hne Hall. unfold display_schedule. rewrite empty_rows.
  destruct rs as [|r rs]; [now destruct Hne|]. cbn iota.
  unfold bind at 1. rewrite print_printed.
  unfold bind at 1. rewrite print_printed.
  unfold bind at 1. rewrite print_printed.
  rewrite (@for_each_printed _ (day_block calendar_mark (r :: rs)) _ days_order).
  - rewrite !printed_app. reflexivity.
  - intros day w0 _. now apply day_loop_printed.
Qed.

(** For a table with the five columns that is not empty, the display
    raises nothing, writes no file and prints the banner and then, for
    each day from Monday to Sunday that has a task, the heading of the
    day, a rule, the tasks of the day in the order of the table, and an
    empty line; nothing is printed for a day without a task. *)
Theorem display_prints calendar_mark (rs : list (list string)) (w : world) :
  rs <> [] ->
  Forall (fun r => length r = 5) rs ->
  display_schedule calendar_mark {| columns := schedule_columns; rows := rs |} w
  = (Returned tt,
     printed (banner ++ flat_map (day_block calendar_mark rs) days_order) w)
  /\ files (printed (banner ++ flat_map (day_block calendar_mark rs) days_order) w)
     = files w.
Proof. intros Hne Hall. split; [now apply display_lines | reflexivity]. Qed.

Lemma display_prints_witness :
  stdout (snd (display_schedule "#"
                 {| columns := schedule_columns;
                    rows := [["Read"; "Tuesday"; "N/A"; "N/A"; "Chapter 2"];
                             ["Lab"; "Monday"; "09:00"; "10:00"; ""]] |}
                 {| stdout := []; files := [] |}))
  = rev (banner
         ++ [String newline "# MONDAY"; times "-" 40;
             "  09:00 - 10:00   | Lab"; "";
             String newline "# TUESDAY"; times "-" 40;
             "  All Day         | Read";
             "                  | Description: Chapter 2"; ""]).
Proof.
  rewrite (proj1 (@display_prints "#"
                    [["Read"; "Tuesday"; "N/A"; "N/A"; "Chapter 2"];
                     ["Lab"; "Monday"; "09:00"; "10:00"; ""]]
                    {| stdout := []; files := [] |}
                    ltac:(discriminate) ltac:(repeat constructor))).
  vm_compute. reflexivity.
Defined.

Lemma weekday_name_known (d : date) : In (weekday_name d) days_order.
Proof.
  unfold weekday_name, weekday.
  change days_order with day_names. apply nth_In.
  pose proof (Z.mod_pos_bound (toordinal d + 6) 7 eq_refl) as H.
  change (length day_names) with 7. lia.
Qed.

Lemma flat_map_in_split A B (f : A -> list B) (l : list A) (x : A) :
  In x l -> exists a b, flat_map f l = a ++ f x ++ b.
Proof.
  intros H. apply in_split in H as (l1 & l2 & ->).
  exists (flat_map f l1), (flat_map f l2).
  now rewrite flat_map_app.
Qed.

Lemma description_nonempty (d : date) :
  String.eqb (strftime "%B %d, %Y" d) "" = false.
Proof.
  rewrite strftime_description. now destruct (month_name d).
Qed.

(** Every date found in the syllabus is shown by the display: its day
    name is one of the seven that the display goes through, and under it
    stand the line of an all-day "Syllabus Event" and, right after it,
    the line with the date. *)
Theorem display_shows_syllabus_dates calendar_mark (dates : list date)
        (sdf : DataFrame) (d : date) (w : world) :
  syllabus_df dates = Returned sdf ->
  In d dates ->
  exists earlier later,
    display_schedule calendar_mark sdf w
    = (Returned tt,
       printed (earlier
                ++ ["  All Day         | Syllabus Event"%string;
                    ("                  | Description: "
                     ++ strftime "%B %d, %Y" d)%string]
                ++ later) w).
Proof.
  intros Hs Hd.
  rewrite syllabus_df_rows in Hs by (intros ->; contradiction).
  inversion Hs; subst sdf; clear Hs.
  assert (Hrows : In (syllabus_row d) (map syllabus_row dates))
    by now apply in_map.
  rewrite display_lines.
  - destruct (@flat_map_in_split _ _
                (day_block calendar_mark (map syllabus_row dates))
                days_order (weekday_name d) (weekday_name_known d))
      as (a & b & E).
    rewrite E. unfold day_block.
    assert (Hf : In (syllabus_row d)
                   (filter (fun r => String.eqb
                              (Day (entry_of_row schedule_columns r))
                              (weekday_name d))
                           (map syllabus_row dates))).
    { apply filter_In. split; [exact Hrows|].
      rewrite entry_of_syllabus_row. apply String.eqb_refl. }
    destruct (filter (fun r => String.eqb
                        (Day (entry_of_row schedule_columns r))
                        (weekday_name d))
                     (map syllabus_row dates)) as [|r0 l] eqn:Ef;
      [contradiction|].
    destruct (@flat_map_in_split _ _ task_lines (r0 :: l) (syllabus_row d) Hf)
      as (a' & b' & E').
    rewrite E'.
    assert (Et : task_lines (syllabus_row d)
                 = ["  All Day         | Syllabus Event"%string;
                    ("                  | Description: "
                     ++ strftime "%B %d, %Y" d)%string]).
    { unfold task_lines, syllabus_row, entry_of_row, cell.
      cbn [combine schedule_columns lookup String.eqb Ascii.eqb Bool.eqb
           StartTime EndTime Task Description].
      now rewrite description_nonempty. }
    rewrite Et.
    exists (banner ++ a
            ++ [String newline (calendar_mark ++ " " ++ str_upper (weekday_name d));
                times "-" 40] ++ a'),
      (b' ++ [""%string] ++ b).
    do 2 f_equal. repeat rewrite <- app_assoc. reflexivity.
  - destruct dates; [contradiction | discriminate].
  - apply Forall_forall. intros r Hr. apply in_map_iff in Hr as (x & <- & _).
    reflexivity.
Qed.

Lemma display_shows_syllabus_dates_witness :
  exists earlier later,
    display_schedule "#"
      {| columns := schedule_columns;
         rows := [syllabus_row {| year := 2025%Z; month := 3%Z; day := 3%Z |}] |}
      {| stdout := []; files := [] |}
    = (Returned tt,
       printed (earlier
                ++ ["  All Day         | Syllabus Event"%string;
                    "                  | Description: March 03, 2025"%string]
                ++ later) {| stdout := []; files := [] |}).
Proof.
  apply (@display_shows_syllabus_dates "#"
           [{| year := 2025%Z; month := 3%Z; day := 3%Z |}]
           {| columns := schedule_columns;
              rows := [syllabus_row {| year := 2025%Z; month := 3%Z; day := 3%Z |}] |}
           {| year := 2025%Z; month := 3%Z; day := 3%Z |}
           {| stdout := []; files := [] |}).
  - vm_compute. reflexivity.
  - now left.
Defined.

(** ** The scanner ignores case *)



















(** ** The exported text can be read back in one way only *)

Lemma ends_field_special c t : ends_field (String c t) -> needs_quotes c = true.
Proof. intros [->| ->]; reflexivity. Qed.

Lemma ends_field_not_quote c t : ends_field (String c t) -> c <> quote.
Proof. intros [->| ->]; discriminate. Qed.

Lemma plain_unique : forall a b t1 t2,
  existsb needs_quotes (list_ascii_of_string a) = false ->
  existsb needs_quotes (list_ascii_of_string b) = false ->
  ends_field t1 -> ends_field t2 ->
  (a ++ t1 = b ++ t2)%string -> a = b /\ t1 = t2.
Proof.
  induction a as [|c a IH]; intros [|d b] t1 t2 Ha Hb H1 H2 E; simpl in *.
  - now split.
  - subst t1. apply ends_field_special in H1.
    apply orb_false_iff in Hb as [Hd _]. congruence.
  - subst t2. apply ends_field_special in H2.
    apply orb_false_iff in Ha as [Hc _]. congruence.
  - inversion E; subst d. apply orb_false_iff in Ha as [_ Ha].
    apply orb_false_iff in Hb as [_ Hb].
    destruct (IH b t1 t2 Ha Hb H1 H2) as [-> ->]; [assumption|now split].
Qed.

Lemma quoted_unique : forall a b t1 t2,
  ends_field t1 -> ends_field t2 ->
  (double_quotes a ++ String quote t1 = double_quotes b ++ String quote t2)%string ->
  a = b /\ t1 = t2.
Proof.
  induction a as [|c a IH]; intros [|d b] t1 t2 H1 H2 E.
  - simpl in E. inversion E. now split.
  - exfalso. cbn [double_quotes] in E.
    destruct (Ascii.eqb_spec d quote) as [->|Hd]; simpl in E; inversion E.
    + subst t1. now apply ends_field_not_quote in H1.
    + now subst d.
  - exfalso. cbn [double_quotes] in E.
    destruct (Ascii.eqb_spec c quote) as [->|Hc]; simpl in E; inversion E.
    + subst t2. now apply ends_field_not_quote in H2.
    + now subst c.
  - cbn [double_quotes] in E.
    destruct (Ascii.eqb_spec c quote) as [->|Hc];
      destruct (Ascii.eqb_spec d quote) as [->|Hd]; simpl in E; inversion E.
    + destruct (IH b t1 t2 H1 H2) as [-> ->]; [assumption|now split].
    + now subst d.
    + now subst c.
    + subst d. destruct (IH b t1 t2 H1 H2) as [-> ->]; [assumption|now split].
Qed.

Lemma field_unique a b t1 t2 :
  ends_field t1 -> ends_field t2 ->
  (csv_field a ++ t1 = csv_field b ++ t2)%string -> a = b /\ t1 = t2.
Proof.
  intros H1 H2. unfold csv_field.
  destruct (existsb needs_quotes (list_ascii_of_string a)) eqn:Ha;
    destruct (existsb needs_quotes (list_ascii_of_string b)) eqn:Hb.
  - simpl. rewrite !string_app_assoc. simpl. intros E. inversion E.
    now apply quoted_unique.
  - simpl. rewrite string_app_assoc. intros E. exfalso.
    destruct b as [|d b]; simpl in E.
    + subst t2. now apply ends_field_not_quote in H2.
    + inversion E; subst d. simpl in Hb. discriminate Hb.
  - simpl. rewrite string_app_assoc. intros E. exfalso.
    destruct a as [|c a]; simpl in E.
    + subst t1. now apply ends_field_not_quote in H1.
    + inversion E; subst c. simpl in Ha. discriminate Ha.
  - now apply plain_unique.
Qed.

Lemma csv_line_cons a (f : list string) :
  csv_line (a :: f)
  = (csv_field a ++ match f with
                    | [] => String newline ""
                    | _ => String "," (csv_line f)
                    end)%string.
Proof.
  unfold csv_line. destruct f as [|b f]; [reflexivity|].
  cbn [map String.concat]. now rewrite string_app_assoc.
Qed.

Lemma line_unique : forall (f1 f2 : list string) (r1 r2 : string),
  f1 <> [] -> f2 <> [] ->
  (csv_line f1 ++ r1 = csv_line f2 ++ r2)%string -> f1 = f2 /\ r1 = r2.
Proof.
  induction f1 as [|a f1 IH]; intros [|b f2] r1 r2 Hn1 Hn2 E;
    try now (destruct Hn1 || destruct Hn2).
  rewrite !csv_line_cons, !string_app_assoc in E.
  apply field_unique in E.
  - destruct E as [-> E]. destruct f1 as [|a1 f1]; destruct f2 as [|b1 f2];
      simpl in E; inversion E.
    + now split.
    + destruct (IH (b1 :: f2) r1 r2) as [-> ->];
        [discriminate | discriminate | assumption | now split].
  - destruct f1; simpl; [now right | now left].
  - destruct f2; simpl; [now right | now left].
Qed.

Lemma concat_lines (r : list string) (rs : list (list string)) :
  String.concat "" (map csv_line (r :: rs))
  = (csv_line r ++ String.concat "" (map csv_line rs))%string.
Proof.
  destruct rs as [|r' rs]; [cbn; now rewrite string_app_nil_r | reflexivity].
Qed.

Lemma csv_line_nonempty f r : (csv_line f ++ r)%string <> ""%string.
Proof.
  destruct f as [|a f]; [discriminate|].
  rewrite csv_line_cons, string_app_assoc.
  unfold csv_field. destruct (existsb needs_quotes (list_ascii_of_string a)).
  - discriminate.
  - destruct a; [destruct f|]; discriminate.
Qed.

Lemma lines_unique : forall (rs1 rs2 : list (list string)),
  Forall (fun r => r <> []) rs1 -> Forall (fun r => r <> []) rs2 ->
  String.concat "" (map csv_line rs1) = String.concat "" (map csv_line rs2) ->
  rs1 = rs2.
Proof.
  induction rs1 as [|r1 rs1 IH]; intros [|r2 rs2] H1 H2 E.
  - reflexivity.
  - rewrite concat_lines in E. symmetry in E. now apply csv_line_nonempty in E.
  - rewrite concat_lines in E. now apply csv_line_nonempty in E.
  - rewrite !concat_lines in E. inversion H1; inversion H2; subst.
    apply line_unique in E as [-> E]; try assumption.
    now rewrite (IH rs2).
Qed.

(** Nothing is lost in the export: two tables of two columns or more
    that are exported to the same text are the same table, with the same
    column labels and the same cells, whatever commas, quotes and line
    ends the cells hold. *)
Theorem to_csv_injective (df1 df2 : DataFrame) :
  wide df1 -> wide df2 -> to_csv df1 = to_csv df2 -> df1 = df2.
Proof.
  intros [Hc1 Hr1] [Hc2 Hr2]. destruct df1 as [c1 rs1], df2 as [c2 rs2].
  unfold to_csv. cbn [columns rows] in *. intros E.
  apply line_unique in E as [-> E].
  - f_equal. apply lines_unique; try assumption.
    + eapply Forall_impl; [|exact Hr1]. intros r H ->. simpl in H. lia.
    + eapply Forall_impl; [|exact Hr2]. intros r H ->. simpl in H. lia.
  - intros ->. simpl in Hc1. lia.
  - intros ->. simpl in Hc2. lia.
Qed.

Lemma to_csv_injective_witness :
  user_tasks [("Read, then write", "Monday", "09:00", "10:00", "")]
  = {| columns := schedule_columns;
       rows := [["Read, then write"; "Monday"; "09:00"; "10:00"; ""]] |}.
Proof.
  apply to_csv_injective.
  - split; [vm_compute; lia | repeat constructor].
  - split; [vm_compute; lia | repeat constructor].
  - vm_compute. reflexivity.
Defined.

Lemma date_matches_none_witness :
  date_matches (list_ascii_of_string "Week 3Feb 14") = []
  /\ word_before (last_char None (list_ascii_of_string "Week 3")) = true.
Proof.
  assert (E : date_matches (list_ascii_of_string "Week 3Feb 14") = [])
    by (vm_compute; reflexivity).
  split; [exact E|].
  apply (proj1 (date_matches_none (list_ascii_of_string "Week 3Feb 14")) E
           (list_ascii_of_string "Week 3") (list_ascii_of_string "Feb 14") []).
  - reflexivity.
  - destruct (@mention_end_sound (list_ascii_of_string "Feb 14") [] eq_refl)
      as (m & Em & Hm).
    rewrite app_nil_r in Em. now subst m.
Defined.

Lemma extract_contained_witness :
  snd (extract_dates_from_pdf (parse 2026%Z)
         (fun _ => Raised {| is_Exception := false;
                             message := "KeyboardInterrupt" |})
         "syllabus.pdf" {| stdout := []; files := [] |})
  = {| stdout := []; files := [] |}.
Proof.
  destruct (extract_contained (parse 2026%Z)
              (fun _ => Raised {| is_Exception := false;
                                  message := "KeyboardInterrupt" |})
              "syllabus.pdf" {| stdout := []; files := [] |}) as (_ & H & _).
  exact (proj2 (H {| is_Exception := false; message := "KeyboardInterrupt" |}
                  eq_refl)).
Defined.

Lemma export_filename_csv_witness : export_filename "  notes " = "notes.csv"%string.
Proof.
  destruct (export_filename_csv "  notes ") as (_ & _ & H & _).
  rewrite H; [reflexivity|]. vm_compute. discriminate.
Defined.
